(** * Conway's Game of Life: the threads version (gol-par.cpp) and the
      OpenMP version (gol-omp.cpp)

    A shallow embedding of [updateCell], [updateBoard] and [main] of both
    programs, and the properties of the step function, of the row
    partitioner and of the driver.

    Conventions of the embedding.
    - A C++ [int] is a [Z]; the result of every [int] operation goes through
      [to_int] (two's complement wrap-around, as the compiled code behaves),
      every conversion to [size_t] through [to_size_t].
    - [std::vector<T>] is [list T]; [v.at(n)] is [vec_at], which raises
      [out_of_range] exactly when [n >= v.size()].
    - A function that can throw or run into undefined behaviour returns a
      [result].
    - A counting loop [for (int i = a; i < b; i++)] is a [for_each] over
      [seqZ a (b - a)]. Its counter stays below the bound, so it does not
      overflow as long as the bound is an [int]; the dimensions of the
      boards are [int]s in both programs ([initializeBoard] takes them as
      such), and the theorems state it as [nrows <= INT_MAX] and
      [ncols <= INT_MAX]. *)

From Stdlib Require Import ZArith Lia Bool String Ascii DecimalString.
From stdpp Require Import base tactics list list_numbers.

Local Open Scope Z_scope.

(** ** Machine integers *)

Definition INT_MAX : Z := 2147483647.
Definition INT_MIN : Z := -2147483648.

(** Conversion of a mathematical integer to [int] (32 bits, signed). *)
Definition to_int (z : Z) : Z := (z + 2147483648) mod 4294967296 - 2147483648.

(** Conversion to [size_t] (64 bits, unsigned). *)
Definition to_size_t (z : Z) : Z := z mod 18446744073709551616.

(** [a + b] on [int]. *)
Definition int_add (a b : Z) : Z := to_int (a + b).

(** An [int] used as a condition. *)
Definition nonzero (z : Z) : bool := negb (z =? 0).

(** ** Exceptions and undefined behaviour *)

Inductive error : Type :=
| out_of_range          (* std::out_of_range thrown by vector::at *)
| undefined_behaviour.  (* division by zero, back() of an empty vector *)

Inductive result (A : Type) : Type :=
| Ok (a : A)
| Err (e : error).
Arguments Ok {A} a.
Arguments Err {A} e.

Definition bind {A B : Type} (m : result A) (k : A -> result B) : result B :=
  match m with
  | Ok a => k a
  | Err e => Err e
  end.

Notation "'let*' x ':=' m 'in' k" := (bind m (fun x => k))
  (at level 10, x name, m at level 100, k at level 200).

(** A loop over the elements of [l] that threads the state [s] through the
    body: [for (auto x : l) s = body(x, s)], stopping at the first error. *)
Fixpoint for_each {A S : Type} (l : list A) (body : A -> S -> result S) (s : S)
  : result S :=
  match l with
  | [] => Ok s
  | x :: l' => let* s' := body x s in for_each l' body s'
  end.

(** ** Vectors and boards *)

Abbreviation Row := (list Z).
Abbreviation Board := (list (list Z)).

(** [v.size()] *)
Definition vsize {A : Type} (v : list A) : Z := Z.of_nat (length v).

(** [v.at(n)] for [n] already converted to [size_t]. *)
Definition vec_at {A : Type} (v : list A) (n : Z) : result A :=
  if n <? vsize v then
    match v !! Z.to_nat n with
    | Some x => Ok x
    | None => Err out_of_range
    end
  else Err out_of_range.

(** [v.at(n) = x] *)
Definition vec_set {A : Type} (v : list A) (n : Z) (x : A) : result (list A) :=
  if n <? vsize v then Ok (<[Z.to_nat n := x]> v) else Err out_of_range.

(** [struct Range { int start; int end; }] *)
Record Range : Type := mkRange { start : Z; end_ : Z }.

(** [std::vector<int> range = {-1, 0, 1};] *)
Definition range : list Z := [-1; 0; 1].

(** ** The two programs *)

(** What the programs take from their environment: [atoi], the sequence of
    values of [rand()] after [srand(seed)], and the time the loop took. *)
Record Env : Type := mkEnv {
  atoi : string -> Z;
  rand_after : Z -> nat -> Z;
  elapsed_usec : Z
}.

(** A piece of standard output. *)
Inductive out_item : Type :=
| text (s : string)
| number (z : Z).

Definition newline : string := String (ascii_of_nat 10) EmptyString.

(** The state of a run when [main] returns. [nw_at_loop] is the value of
    [nw] at the simulation loop and [board_at_exit] the last board; both
    are absent when [main] returns before them. *)
Record Exit : Type := mkExit {
  stdout : list out_item;
  status : Z;
  nw_at_loop : option Z;
  board_at_exit : option (list (list Z))
}.

(** [initializeBoard], the same in both files: [nrows] rows of [ncols]
    values [rand() % 2], drawn in row-major order. The state of the loops is
    the vector built so far and the number of calls to [rand()]. *)
Definition initializeBoard (env : Env) (nrows ncols seed : Z) : Board :=
  fst (foldl (fun (st : list (list Z) * nat) (_ : Z) =>
         let filled :=
           foldl (fun (st' : list Z * nat) (_ : Z) =>
                    (fst st' ++ [Z.rem (rand_after env seed (snd st')) 2],
                     S (snd st')))
                 ([], snd st) (seqZ 0 ncols) in
         (fst st ++ [fst filled], snd filled))
       ([], 0%nat) (seqZ 0 nrows)).

Definition usage (argv0 : string) : list out_item :=
  [text "Usage: "; text argv0;
   text (" nrows ncols iters seed sleeptime nworkers" ++ newline)].

Definition report (env : Env) : list out_item :=
  [text "Simulation spent: "; number (Z.quot (elapsed_usec env) 1000);
   text (" msec" ++ newline)].

Definition warning : list out_item :=
  [text "Warning: bounding workers with nrows."; text newline].

(** [argv[k]], with [argv[0]] the name of the program. *)
Definition argv (argv0 : string) (args : list string) (k : nat) : string :=
  nth k (argv0 :: args) EmptyString.


(** [sched] is an interleaving of the sequences [chunks]: each step takes
    the head of one of them. *)
Inductive interleaving {A : Type} : list (list A) -> list A -> Prop :=
| interleaving_nil chunks :
    Forall (fun c => c = []) chunks -> interleaving chunks []
| interleaving_cons chunks1 x c chunks2 sched :
    interleaving (chunks1 ++ c :: chunks2) sched ->
    interleaving (chunks1 ++ (x :: c) :: chunks2) (x :: sched).

(** ** The threads version, gol-par.cpp *)

Module Par.

(** gol-par.cpp, lines 93-112. The last expression is evaluated left to
    right with short circuit, so the centre cell is read once or twice. *)
Definition updateCell (r c : Z) (board : Board) : result bool :=
  let* neighbours :=
    for_each range (fun offset neighbours =>
      if (0 <=? int_add r offset)
         && (to_size_t (int_add r offset) <? vsize board) then
        let* row := vec_at board (to_size_t (int_add r offset)) in
        for_each range (fun offcol neighbours =>
          if (nonzero offcol || nonzero offset)
             && (0 <=? int_add c offcol)
             && (to_size_t (int_add c offcol) <? vsize row) then
            let* brow := vec_at board (to_size_t (int_add r offset)) in
            let* v := vec_at brow (to_size_t (int_add c offcol)) in
            Ok (int_add neighbours v)
          else Ok neighbours) neighbours
      else Ok neighbours) 0 in
  let* stays :=
    if (neighbours =? 2) || (neighbours =? 3) then
      let* brow := vec_at board (to_size_t r) in
      let* v := vec_at brow (to_size_t c) in
      Ok (nonzero v)
    else Ok false in
  if stays then Ok true
  else
    let* brow := vec_at board (to_size_t r) in
    let* v := vec_at brow (to_size_t c) in
    Ok (negb (nonzero v) && (neighbours =? 3)).


(** gol-par.cpp, lines 132-148: the ranges handed to the threads.
    [board.size() / nworkers] and [board.size() % nworkers] are computed on
    [size_t], so [nworkers] is converted first; a zero divisor is undefined
    behaviour. [i] runs from 0 while [i < nworkers], both [int]. The two
    arms of the conditional for [range.end] are [size_t] and the result is
    narrowed to [int]. *)
Definition build_ranges (size nworkers : Z) : result (list Range) :=
  if to_size_t nworkers =? 0 then Err undefined_behaviour
  else
    let range_size := size / to_size_t nworkers in
    let rem := size mod to_size_t nworkers in
    for_each (seqZ 0 nworkers) (fun i ranges =>
      let* start_i :=
        if i =? 0 then Ok 0
        else match last ranges with
             | Some back => Ok (int_add (end_ back) 1)
             | None => Err undefined_behaviour
             end in
      let end_i :=
        to_int (if negb (i =? int_add nworkers (-1))
                then to_size_t (to_size_t start_i + range_size - 1)
                else to_size_t (size - 1)) in
      let end_i := if to_size_t i <? rem then int_add end_i 1 else end_i in
      Ok (ranges ++ [mkRange start_i end_i])) [].

(** The body of the loop of [compute_chunk] for the row [r], lines 153-159. *)
Definition row_task (board : Board) (r : Z) (new_board : Board) : result Board :=
  let* row := vec_at board (to_size_t r) in
  let* new_row :=
    for_each (seqZ 0 (vsize row)) (fun i new_row =>
      let* b := updateCell r i board in
      Ok (new_row ++ [Z.b2z b])) [] in
  vec_set new_board (to_size_t r) new_row.

(** The rows [range.start], ..., [range.end] in the order of the loop
    [for (int r = range.start; r <= range.end; r++)]. *)
Definition chunk_rows (rg : Range) : list Z :=
  seqZ (start rg) (end_ rg - start rg + 1).

(** The lambda [compute_chunk], lines 151-161. *)
Definition compute_chunk (board : Board) (rg : Range) (new_board : Board)
  : result Board :=
  for_each (chunk_rows rg) (row_task board) new_board.

(** gol-par.cpp, lines 125-172. The threads are run one after the other in
    the order of their creation; [run_schedule] below runs them under any
    other interleaving. The result is the value assigned to [*b]. *)
Definition updateBoard (board : Board) (nworkers : Z) : result Board :=
  let new_board := replicate (length board) [] in
  let* ranges := build_ranges (vsize board) nworkers in
  for_each ranges (compute_chunk board) new_board.

(** The row tasks of all threads executed in the order [sched]. *)
Definition run_schedule (board : Board) (sched : list Z) : result Board :=
  for_each sched (row_task board) (replicate (length board) []).


(** gol-par.cpp, lines 195-236, compiled without DEBUG, where [msec] is
    not used. [argv0] is [argv[0]] and [args] the other arguments, so
    [argc = 1 + |args|]. *)
Definition main (env : Env) (argv0 : string) (args : list string) : result Exit :=
  if negb (1 + vsize args =? 7) then
    Ok (mkExit (usage argv0) (-1) None None)
  else
    let nrows := atoi env (argv argv0 args 1) in
    let ncols := atoi env (argv argv0 args 2) in
    let iters := atoi env (argv argv0 args 3) in
    let seed := atoi env (argv argv0 args 4) in
    let nw := atoi env (argv argv0 args 6) in
    let bounded := if nw >? nrows then (warning, nrows) else ([], nw) in
    let nw := snd bounded in
    let board := initializeBoard env nrows ncols seed in
    let* board :=
      for_each (seqZ 0 iters) (fun _ board => updateBoard board nw)
               board in
    Ok (mkExit (fst bounded ++ report env) 0 (Some nw) (Some board)).

End Par.

(** ** The OpenMP version, gol-omp.cpp *)

Module Omp.

(** gol-omp.cpp, lines 80-98: the same function, with the test on the
    offsets spelled [(offcol != 0) || offset != 0]. *)
Definition updateCell (r c : Z) (board : Board) : result bool :=
  let* neighbours :=
    for_each range (fun offset neighbours =>
      if (0 <=? int_add r offset)
         && (to_size_t (int_add r offset) <? vsize board) then
        let* row := vec_at board (to_size_t (int_add r offset)) in
        for_each range (fun offcol neighbours =>
          if (negb (offcol =? 0) || negb (offset =? 0))
             && (0 <=? int_add c offcol)
             && (to_size_t (int_add c offcol) <? vsize row) then
            let* brow := vec_at board (to_size_t (int_add r offset)) in
            let* v := vec_at brow (to_size_t (int_add c offcol)) in
            Ok (int_add neighbours v)
          else Ok neighbours) neighbours
      else Ok neighbours) 0 in
  let* stays :=
    if (neighbours =? 2) || (neighbours =? 3) then
      let* brow := vec_at board (to_size_t r) in
      let* v := vec_at brow (to_size_t c) in
      Ok (nonzero v)
    else Ok false in
  if stays then Ok true
  else
    let* brow := vec_at board (to_size_t r) in
    let* v := vec_at brow (to_size_t c) in
    Ok (negb (nonzero v) && (neighbours =? 3)).


(** The body of the parallel loop for the row [r], lines 117-124. *)
Definition row_task (board : Board) (r : Z) (new_board : Board) : result Board :=
  let* row := vec_at board (to_size_t r) in
  let* new_row :=
    for_each (seqZ 0 (vsize row)) (fun i new_row =>
      let* b := updateCell r i board in
      Ok (new_row ++ [Z.b2z b])) [] in
  vec_set new_board (to_size_t r) new_row.

(** The iterations of the parallel loop executed in the order [sched]:
    with [schedule(dynamic)] the threads of the team take the rows one at a
    time, in an order that the run decides. *)
Definition run_schedule (board : Board) (sched : list Z) : result Board :=
  for_each sched (row_task board) (replicate (length board) []).

(** gol-omp.cpp, lines 110-128, with the iterations in increasing order.
    [nw] only sizes the team of threads ([num_threads(nw)], which OpenMP
    wants positive). *)
Definition updateBoard (board : Board) (nw : Z) : result Board :=
  run_schedule board (seqZ 0 (vsize board)).


(** gol-omp.cpp, lines 151-186, compiled without DEBUG. *)
Definition main (env : Env) (argv0 : string) (args : list string) : result Exit :=
  if negb (1 + vsize args =? 7) then
    Ok (mkExit (usage argv0) (-1) None None)
  else
    let nrows := atoi env (argv argv0 args 1) in
    let ncols := atoi env (argv argv0 args 2) in
    let iters := atoi env (argv argv0 args 3) in
    let seed := atoi env (argv argv0 args 4) in
    let nw := atoi env (argv argv0 args 6) in
    let board := initializeBoard env nrows ncols seed in
    let* board :=
      for_each (seqZ 0 iters) (fun _ board => updateBoard board nw)
               board in
    Ok (mkExit (report env) 0 (Some nw) (Some board)).

End Omp.

(** ** The rule of the game, as the specification words it *)

(** A board of [nrows] rows that all have [ncols] cells. *)
Definition rectangular (board : Board) (nrows ncols : Z) : Prop :=
  vsize board = nrows /\ Forall (fun row : list Z => vsize row = ncols) board.

(** Every cell is 0 (dead) or 1 (alive). *)
Definition binary_board (board : Board) : Prop :=
  Forall (Forall (fun v : Z => v = 0 \/ v = 1)) board.

(** The state at [(r, c)]; a position outside the board contributes 0. *)
Definition cell_or_zero (board : Board) (r c : Z) : Z :=
  if (0 <=? r) && (0 <=? c) then
    match board !! Z.to_nat r with
    | Some row => default 0 (row !! Z.to_nat c)
    | None => 0
    end
  else 0.

(** The eight neighbours of a cell: the 3x3 block without its centre. *)
Definition neighbour_offsets : list (Z * Z) :=
  [(-1, -1); (-1, 0); (-1, 1); (0, -1); (0, 1); (1, -1); (1, 0); (1, 1)].

Definition neighbour_sum (board : Board) (r c : Z) : Z :=
  foldr Z.add 0
    (map (fun d : Z * Z => cell_or_zero board (r + fst d) (c + snd d))
         neighbour_offsets).

(** What the row [r + offset] of the 3x3 block adds to the count. *)
Definition row_sum (board : Board) (r c offset : Z) : Z :=
  (if nonzero (-1) || nonzero offset then cell_or_zero board (r + offset) (c + -1) else 0)
  + (if nonzero 0 || nonzero offset then cell_or_zero board (r + offset) (c + 0) else 0)
  + (if nonzero 1 || nonzero offset then cell_or_zero board (r + offset) (c + 1) else 0).

(** An alive cell stays alive with 2 or 3 neighbours, a dead cell becomes
    alive with exactly 3; any other cell is dead. *)
Definition life_rule (alive : bool) (count : Z) : bool :=
  if alive then (count =? 2) || (count =? 3) else (count =? 3).

(** The next state of the cell [(r, c)], as the [int] stored in the new
    board. The count is the [int] sum of the neighbours. *)
Definition next_cell (board : Board) (r c : Z) : Z :=
  Z.b2z (life_rule (nonzero (cell_or_zero board r c))
                   (to_int (neighbour_sum board r c))).

Definition next_row (board : Board) (r : Z) : list Z :=
  map (next_cell board r)
      (seqZ 0 (vsize (default [] (board !! Z.to_nat r)))).

(** The assignment [new_board.at(r) = new_row] of a finished row. *)
Definition write_row (board : Board) (new_board : Board) (r : Z) : Board :=
  <[Z.to_nat r := next_row board r]> new_board.

(** One generation of the whole board. *)
Definition life_step (board : Board) : Board :=
  map (next_row board) (seqZ 0 (vsize board)).

(** [map] with a function that can fail, left to right. *)
Fixpoint map_result {A B : Type} (f : A -> result B) (l : list A)
  : result (list B) :=
  match l with
  | [] => Ok []
  | x :: l' => let* y := f x in let* ys := map_result f l' in Ok (y :: ys)
  end.

(** The sequential step, as the specification words it: [updateCell]
    applied to every cell of the prior board, row by row and column by
    column, by one thread. *)
Definition sequential_step (board : Board) : result Board :=
  map_result (fun r =>
    let* row := vec_at board r in
    map_result (fun c => let* b := Par.updateCell r c board in Ok (Z.b2z b))
               (seqZ 0 (vsize row)))
    (seqZ 0 (vsize board)).

(** [n] steps of a step function that can fail. *)
Fixpoint iterate {S : Type} (n : nat) (step : S -> result S) (s : S) : result S :=
  match n with
  | O => Ok s
  | Datatypes.S n' => let* s' := step s in iterate n' step s'
  end.

(** The closed form of the [i]-th range for [nworkers] workers. *)
Definition range_of (size nworkers i : Z) : Range :=
  let base := size / nworkers in
  let rem := size mod nworkers in
  let first := i * base + Z.min i rem in
  mkRange first (first + base + (if i <? rem then 1 else 0) - 1).

(** The number of rows of an inclusive range. *)
Definition range_len (rg : Range) : Z := end_ rg - start rg + 1.

(** The 5x5 board with a horizontal blinker in its middle row. *)
Definition blinker : Board :=
  [[0; 0; 0; 0; 0]; [0; 0; 0; 0; 0]; [0; 1; 1; 1; 0]; [0; 0; 0; 0; 0];
   [0; 0; 0; 0; 0]].

(** A 3x3 board without alive cells and a 2x2 board. *)
Definition dead3 : Board := [[0; 0; 0]; [0; 0; 0]; [0; 0; 0]].
Definition square2 : Board := [[0; 1]; [1; 0]].

(** Every cell is dead. *)
Definition all_dead (board : Board) : Prop :=
  Forall (Forall (fun v : Z => v = 0)) board.

(** [atoi] of the C library on decimal digits, for the examples: optional
    blanks, an optional sign, then the digits. *)
Definition is_blank (a : ascii) : bool :=
  let n := nat_of_ascii a in ((n =? 32) || ((9 <=? n) && (n <=? 13)))%nat.

Definition digit_of (a : ascii) : option Z :=
  let n := nat_of_ascii a in
  if ((48 <=? n) && (n <=? 57))%nat then Some (Z.of_nat n - 48) else None.

Fixpoint read_digits (s : string) (acc : Z) : Z :=
  match s with
  | String a s' =>
      match digit_of a with
      | Some d => read_digits s' (10 * acc + d)
      | None => acc
      end
  | EmptyString => acc
  end.

Fixpoint skip_blanks (s : string) : string :=
  match s with
  | String a s' => if is_blank a then skip_blanks s' else s
  | EmptyString => s
  end.

Definition atoi_decimal (s : string) : Z :=
  match skip_blanks s with
  | String "-" s' => to_int (- read_digits s' 0)
  | String "+" s' => to_int (read_digits s' 0)
  | s' => to_int (read_digits s' 0)
  end.

(** An environment for the examples: [rand()] alternates, the loop took
    5 ms. *)
Definition demo_env : Env :=
  mkEnv atoi_decimal (fun _ k => Z.of_nat k) 5000.

(** Command lines for the examples: a 3x3 board, 2 steps, 5 workers; and a
    2x2 board, 1 step, 3 workers. *)
Definition args_3x3 : list string :=
  ["3"%string; "3"%string; "2"%string; "1"%string; "0"%string; "5"%string].

(** ** Rendering and the DEBUG build *)

(** [#define ALIVE_CELL "X "] and [#define DEAD_CELL "° "], the degree sign
    being the two bytes 194 and 176 of its UTF-8 encoding. *)
Definition ALIVE_CELL : string := "X ".
Definition DEAD_CELL : string :=
  String (ascii_of_nat 194) (String (ascii_of_nat 176) " ").

(** [printBoard], the same in both files (gol-par.cpp, lines 184-192):
    what it appends to the standard output. *)
Definition printBoard (board : Board) : list out_item :=
  concat (map (fun el : list Z =>
                 map (fun x => text (if nonzero x then ALIVE_CELL else DEAD_CELL)) el
                 ++ [text newline])
              board)
  ++ [text " ---------------------- "; text newline].

(** The argument of [usleep(msec * 1000)]: the [int] product converted to
    [useconds_t] (32 bits, unsigned). *)
Definition usleep_arg (msec : Z) : Z := to_int (msec * 1000) mod 4294967296.

(** The state of the simulation loop of a DEBUG build: the board, the
    output so far and the arguments of the calls of [usleep] so far. *)
Record Debug : Type := mkDebug {
  dboard : list (list Z);
  dout : list out_item;
  dsleeps : list Z
}.

Module ParDebug.

(** gol-par.cpp, lines 195-236, compiled with DEBUG: the result of [main]
    and the arguments of its calls of [usleep]. *)
Definition main (env : Env) (argv0 : string) (args : list string)
  : result (Exit * list Z) :=
  if negb (1 + vsize args =? 7) then
    Ok (mkExit (usage argv0) (-1) None None, [])
  else
    let nrows := atoi env (argv argv0 args 1) in
    let ncols := atoi env (argv argv0 args 2) in
    let iters := atoi env (argv argv0 args 3) in
    let seed := atoi env (argv argv0 args 4) in
    let msec := atoi env (argv argv0 args 5) in
    let nw := atoi env (argv argv0 args 6) in
    let bounded := if nw >? nrows then (warning, nrows) else ([], nw) in
    let nw := snd bounded in
    let board := initializeBoard env nrows ncols seed in
    let* st :=
      for_each (seqZ 0 iters) (fun _ st =>
        let* board := Par.updateBoard (dboard st) nw in
        Ok (mkDebug board (dout st ++ printBoard board)
                    (dsleeps st ++ [usleep_arg msec])))
        (mkDebug board (fst bounded) []) in
    Ok (mkExit (dout st ++ report env) 0 (Some nw) (Some (dboard st)),
        dsleeps st).

End ParDebug.

Module OmpDebug.

(** gol-omp.cpp, lines 151-186, compiled with DEBUG. *)
Definition main (env : Env) (argv0 : string) (args : list string)
  : result (Exit * list Z) :=
  if negb (1 + vsize args =? 7) then
    Ok (mkExit (usage argv0) (-1) None None, [])
  else
    let nrows := atoi env (argv argv0 args 1) in
    let ncols := atoi env (argv argv0 args 2) in
    let iters := atoi env (argv argv0 args 3) in
    let seed := atoi env (argv argv0 args 4) in
    let msec := atoi env (argv argv0 args 5) in
    let nw := atoi env (argv argv0 args 6) in
    let board := initializeBoard env nrows ncols seed in
    let* st :=
      for_each (seqZ 0 iters) (fun _ st =>
        let* board := Omp.updateBoard (dboard st) nw in
        Ok (mkDebug board (dout st ++ printBoard board)
                    (dsleeps st ++ [usleep_arg msec])))
        (mkDebug board [] []) in
    Ok (mkExit (dout st ++ report env) 0 (Some nw) (Some (dboard st)),
        dsleeps st).

End OmpDebug.

(** ** Boards of any shape *)

(** The board and its rows have at most [INT_MAX] elements; the rows need
    not have the same length. *)
Definition int_sized (board : Board) : Prop :=
  vsize board <= INT_MAX
  /\ Forall (fun row : list Z => vsize row <= INT_MAX) board.

(** The cell [(r, c)] of the board, if there is one. *)
Definition cell_at (board : Board) (r c : Z) : option Z :=
  if (0 <=? r) && (0 <=? c) then
    match board !! Z.to_nat r with
    | Some row => row !! Z.to_nat c
    | None => None
    end
  else None.


(** A 3-row board whose rows have 2, 0 and 3 cells. *)
Definition ragged : Board := [[1; 1]; []; [0; 1; 1]].

(** The blinker with one more alive cell, in the corner [(4, 4)]. *)
Definition blinker_corner : Board :=
  [[0; 0; 0; 0; 0]; [0; 0; 0; 0; 0]; [0; 1; 1; 1; 0]; [0; 0; 0; 0; 0];
   [0; 0; 0; 0; 1]].

(** Command lines for the examples: no row; no step and no worker; a
    negative worker count. *)
Definition args_no_row : list string :=
  ["0"%string; "4"%string; "1"%string; "1"%string; "0"%string; "2"%string].
Definition args_no_step : list string :=
  ["3"%string; "3"%string; "0"%string; "1"%string; "0"%string; "0"%string].
Definition args_negative : list string :=
  ["3"%string; "2"%string; "2"%string; "1"%string; "0"%string; "-4"%string].

(** ** The bytes on the standard output *)

(** What [operator<<] prints for an integer: its decimal digits, after a
    minus sign when it is negative. *)
Definition decimal (z : Z) : string := NilZero.string_of_int (Z.to_int z).

Definition item_bytes (o : out_item) : string :=
  match o with
  | text s => s
  | number z => decimal z
  end.

(** The bytes that a sequence of outputs leaves on the stream. *)
Fixpoint stream (out : list out_item) : string :=
  match out with
  | [] => EmptyString
  | o :: out' => item_bytes o ++ stream out'
  end.

(** * Proofs *)

Section machine_integers.

Lemma to_int_id z : INT_MIN <= z <= INT_MAX -> to_int z = z.
Proof.
  unfold to_int, INT_MIN, INT_MAX. intros Hz.
  rewrite Z.mod_small; lia.
Qed.

Lemma to_int_range z : INT_MIN <= to_int z <= INT_MAX.
Proof.
  unfold to_int, INT_MIN, INT_MAX.
  pose proof (Z.mod_pos_bound (z + 2147483648) 4294967296). lia.
Qed.

Lemma to_int_add_l a b : to_int (to_int a + b) = to_int (a + b).
Proof.
  unfold to_int.
  replace (((a + 2147483648) mod 4294967296 - 2147483648) + b + 2147483648)
    with ((a + 2147483648) mod 4294967296 + b) by lia.
  rewrite Zplus_mod_idemp_l. f_equal. f_equal. lia.
Qed.

Lemma to_size_t_id z : 0 <= z <= INT_MAX -> to_size_t z = z.
Proof.
  unfold to_size_t, INT_MAX. intros Hz. rewrite Z.mod_small; lia.
Qed.

Lemma int_add_small a b :
  INT_MIN <= a + b <= INT_MAX -> int_add a b = a + b.
Proof. apply to_int_id. Qed.

End machine_integers.

Section update_cell.

Variables (board : Board) (nrows ncols : Z).
Hypothesis Hrect : rectangular board nrows ncols.
Hypothesis Hnrows : nrows <= INT_MAX.
Hypothesis Hncols : ncols <= INT_MAX.

Lemma vec_at_lookup {A} (v : list A) n x :
  0 <= n -> v !! Z.to_nat n = Some x -> vec_at v n = Ok x.
Proof.
  intros Hn Hx. unfold vec_at, vsize.
  apply lookup_lt_Some in Hx as Hlt.
  destruct (Z.ltb_spec n (Z.of_nat (length v))); [|lia].
  by rewrite Hx.
Qed.

Lemma board_row r :
  0 <= r < nrows ->
  exists row, board !! Z.to_nat r = Some row /\ vsize row = ncols.
Proof using Hrect.
  clear Hnrows Hncols.
  destruct Hrect as [Hlen Hall]. intros Hr.
  destruct (lookup_lt_is_Some_2 board (Z.to_nat r)) as [row Hrow].
  { unfold vsize in Hlen. lia. }
  exists row. split; [done|].
  by apply (Forall_lookup_1 _ _ _ _ Hall Hrow).
Qed.

Lemma cell_or_zero_inside r c row v :
  0 <= r -> 0 <= c ->
  board !! Z.to_nat r = Some row -> row !! Z.to_nat c = Some v ->
  cell_or_zero board r c = v.
Proof using Type.
  intros Hr Hc Hrow Hv. unfold cell_or_zero.
  destruct (Z.leb_spec 0 r); [|lia]. destruct (Z.leb_spec 0 c); [|lia].
  cbn. by rewrite Hrow, Hv.
Qed.

(** One neighbour of the row [r']: the guarded read at column [c + dc]. *)
Lemma neighbour_step r' c dc offset n m row :
  0 <= r' < nrows -> board !! Z.to_nat r' = Some row ->
  0 <= c < ncols -> -1 <= dc <= 1 -> n = to_int m ->
  (if (nonzero dc || nonzero offset)
      && (0 <=? int_add c dc)
      && (to_size_t (int_add c dc) <? vsize row) then
     let* v := vec_at row (to_size_t (int_add c dc)) in
     Ok (int_add n v)
   else Ok n)
  = Ok (to_int (m + (if nonzero dc || nonzero offset
                     then cell_or_zero board r' (c + dc) else 0))).
Proof.
  intros Hr' Hrow Hc Hdc ->.
  destruct (board_row r' Hr') as (row' & Hrow' & Hsz).
  assert (row' = row) as -> by congruence.
  rewrite int_add_small by (unfold INT_MIN, INT_MAX in *; lia).
  destruct (nonzero dc || nonzero offset); cbn [andb];
    [|f_equal; f_equal; lia].
  destruct (Z.leb_spec 0 (c + dc)) as [Hlo|Hlo]; cbn [andb].
  - rewrite (to_size_t_id (c + dc)) by lia.
    destruct (Z.ltb_spec (c + dc) (vsize row)) as [Hhi|Hhi].
    + destruct (lookup_lt_is_Some_2 row (Z.to_nat (c + dc))) as [v Hv].
      { unfold vsize in Hhi. lia. }
      rewrite (vec_at_lookup _ _ _ Hlo Hv). cbn [bind].
      rewrite (cell_or_zero_inside r' (c + dc) row v) by (done || lia).
      unfold int_add. by rewrite to_int_add_l.
    + f_equal. unfold cell_or_zero.
      destruct (Z.leb_spec 0 r'); [|lia]. destruct (Z.leb_spec 0 (c + dc)); [|lia].
      cbn. rewrite Hrow. rewrite lookup_ge_None_2; [cbn; f_equal; lia|].
      unfold vsize in Hhi. lia.
  - f_equal. unfold cell_or_zero.
    destruct (Z.leb_spec 0 (c + dc)); [lia|].
    rewrite andb_false_r. f_equal. lia.
Qed.

Lemma row_step r c offset n m :
  0 <= r < nrows -> 0 <= c < ncols -> -1 <= offset <= 1 -> n = to_int m ->
  (if (0 <=? int_add r offset)
      && (to_size_t (int_add r offset) <? vsize board) then
     let* row := vec_at board (to_size_t (int_add r offset)) in
     for_each range (fun offcol neighbours =>
       if (nonzero offcol || nonzero offset)
          && (0 <=? int_add c offcol)
          && (to_size_t (int_add c offcol) <? vsize row) then
         let* brow := vec_at board (to_size_t (int_add r offset)) in
         let* v := vec_at brow (to_size_t (int_add c offcol)) in
         Ok (int_add neighbours v)
       else Ok neighbours) n
   else Ok n)
  = Ok (to_int (m + row_sum board r c offset)).
Proof.
  intros Hr Hc Hoff ->.
  rewrite int_add_small by (unfold INT_MIN, INT_MAX in *; lia).
  assert (vsize board = nrows) as Hlen by apply Hrect.
  destruct (Z.leb_spec 0 (r + offset)) as [Hlo|Hlo]; cbn [andb].
  - rewrite (to_size_t_id (r + offset)) by lia.
    destruct (Z.ltb_spec (r + offset) (vsize board)) as [Hhi|Hhi].
    + destruct (board_row (r + offset)) as (row & Hrow & Hsz); [lia|].
      rewrite (vec_at_lookup _ _ _ Hlo Hrow). cbn [bind for_each range].
      rewrite (neighbour_step (r + offset) c (-1) offset _ m row)
        by (done || lia).
      cbn [bind].
      rewrite (neighbour_step (r + offset) c 0 offset _ _ row)
        by (done || lia).
      cbn [bind].
      rewrite (neighbour_step (r + offset) c 1 offset _ _ row)
        by (done || lia).
      cbn [bind]. f_equal. f_equal. unfold row_sum. lia.
    + f_equal. f_equal. unfold row_sum, cell_or_zero.
      rewrite (lookup_ge_None_2 board (Z.to_nat (r + offset)))
        by (unfold vsize in Hhi; lia).
      repeat match goal with |- context [if ?b then _ else _] => destruct b end; lia.
  - f_equal. f_equal. unfold row_sum, cell_or_zero.
    destruct (Z.leb_spec 0 (r + offset)); [lia|]. cbn [andb].
    repeat match goal with |- context [if ?b then _ else _] => destruct b end; lia.
Qed.

Lemma for_each_range {S} (body : Z -> S -> result S) s :
  for_each range body s
  = let* s1 := body (-1) s in
    let* s2 := body 0 s1 in
    let* s3 := body 1 s2 in Ok s3.
Proof. reflexivity. Qed.

Lemma neighbour_sum_rows r c :
  neighbour_sum board r c
  = 0 + row_sum board r c (-1) + row_sum board r c 0 + row_sum board r c 1.
Proof.
  unfold neighbour_sum, row_sum, neighbour_offsets.
  cbn -[cell_or_zero Z.add]. lia.
Qed.

Lemma centre_cell r c :
  0 <= r < nrows -> 0 <= c < ncols ->
  exists row, vec_at board (to_size_t r) = Ok row
    /\ vec_at row (to_size_t c) = Ok (cell_or_zero board r c).
Proof.
  intros Hr Hc. destruct (board_row r Hr) as (row & Hrow & Hsz).
  exists row. rewrite !to_size_t_id by lia.
  destruct (lookup_lt_is_Some_2 row (Z.to_nat c)) as [v Hv].
  { unfold vsize in Hsz. lia. }
  rewrite (cell_or_zero_inside r c row v) by (done || lia).
  split; apply vec_at_lookup; (done || lia).
Qed.

(** The value of [updateCell] at a cell of the board. *)
Lemma updateCell_eval r c :
  0 <= r < nrows -> 0 <= c < ncols ->
  Par.updateCell r c board
  = Ok (life_rule (nonzero (cell_or_zero board r c))
                  (to_int (neighbour_sum board r c))).
Proof.
  intros Hr Hc. unfold Par.updateCell.
  rewrite for_each_range. cbv beta.
  rewrite (row_step r c (-1) 0 0) by (done || lia). cbn [bind].
  rewrite (row_step r c 0 _ _) by (done || lia). cbn [bind].
  rewrite (row_step r c 1 _ _) by (done || lia). cbn [bind].
  rewrite <- neighbour_sum_rows.
  destruct (centre_cell r c Hr Hc) as (row & Hrow & Hv).
  rewrite Hrow. cbn [bind]. rewrite Hv. cbn [bind].
  unfold life_rule.
  destruct (_ =? 2), (_ =? 3), (nonzero _); reflexivity.
Qed.

Lemma cell_or_zero_binary r c :
  binary_board board -> cell_or_zero board r c = 0 \/ cell_or_zero board r c = 1.
Proof.
  intros Hbin. unfold cell_or_zero.
  destruct ((0 <=? r) && (0 <=? c)); [|by left].
  destruct (board !! Z.to_nat r) as [row|] eqn:Hrow; [|by left].
  destruct (row !! Z.to_nat c) as [v|] eqn:Hv; [|by left].
  cbn. apply (Forall_lookup_1 _ _ _ _ Hbin) in Hrow.
  by apply (Forall_lookup_1 _ _ _ _ Hrow) in Hv.
Qed.

Lemma neighbour_sum_binary r c :
  binary_board board -> 0 <= neighbour_sum board r c <= 8.
Proof.
  intros Hbin. unfold neighbour_sum, neighbour_offsets.
  cbn -[cell_or_zero Z.add].
  repeat match goal with
  | |- context [cell_or_zero board ?a ?b] =>
      let H := fresh in
      destruct (cell_or_zero_binary a b Hbin) as [H|H]; rewrite H; clear H
  end; lia.
Qed.

End update_cell.

(** The two spellings of [updateCell] are one function. *)
Lemma updateCell_omp_par : Omp.updateCell = Par.updateCell.
Proof. reflexivity. Qed.

(** ** Loops *)

Section loops.

Context {A S : Type}.

Lemma for_each_app (l1 l2 : list A) (body : A -> S -> result S) s :
  for_each (l1 ++ l2) body s
  = let* s' := for_each l1 body s in for_each l2 body s'.
Proof.
  revert s. induction l1 as [|x l1 IH]; intros s; cbn; [done|].
  destruct (body x s); cbn; [apply IH|done].
Qed.

(** A loop whose body cannot fail on states that satisfy [P] is a fold. *)
Lemma for_each_foldl (P : S -> Prop) (g : S -> A -> S)
    (l : list A) (body : A -> S -> result S) s :
  P s ->
  (forall x s, x ∈ l -> P s -> body x s = Ok (g s x) /\ P (g s x)) ->
  for_each l body s = Ok (foldl g s l) /\ P (foldl g s l).
Proof.
  revert s. induction l as [|x l IH]; intros s Hs Hbody; cbn; [done|].
  destruct (Hbody x s) as [-> Hs']; [left|done|]. cbn.
  apply IH; [done|]. intros y s' Hy. apply Hbody. by right.
Qed.

Lemma foldl_snoc {B} (f : A -> B) (l : list A) (acc : list B) :
  foldl (fun acc x => acc ++ [f x]) acc l = acc ++ map f l.
Proof.
  revert acc. induction l as [|x l IH]; intros acc; cbn.
  - by rewrite app_nil_r.
  - rewrite IH. by rewrite <- app_assoc.
Qed.

End loops.

(** A loop over chunks whose body is a loop over the chunk. *)
Lemma for_each_chunks {A B S} (f : A -> list B) (l : list A)
    (body : B -> S -> result S) s :
  for_each l (fun x s => for_each (f x) body s) s
  = for_each (concat (map f l)) body s.
Proof.
  revert s. induction l as [|x l IH]; intros s; cbn; [done|].
  rewrite for_each_app. destruct (for_each (f x) body s); cbn; [apply IH|done].
Qed.

Lemma iterate_fixed {S} (step : S -> result S) s n :
  step s = Ok s -> iterate n step s = Ok s.
Proof. intros Hs. induction n as [|n IH]; cbn; [done|]. by rewrite Hs. Qed.

Lemma for_each_iterate {S} (step : S -> result S) (iters : Z) s :
  for_each (seqZ 0 iters) (fun _ s => step s) s
  = iterate (Z.to_nat iters) step s.
Proof.
  rewrite <- (length_seqZ 0 iters).
  generalize (seqZ 0 iters) as l. intros l. revert s.
  induction l as [|x l IH]; intros s; cbn; [done|].
  destruct (step s); cbn; [apply IH|done].
Qed.

(** ** Rows of the new board *)

Section rows.

Variables (board : Board) (nrows ncols : Z).
Hypothesis Hrect : rectangular board nrows ncols.
Hypothesis Hnrows : nrows <= INT_MAX.
Hypothesis Hncols : ncols <= INT_MAX.

Lemma length_next_row r :
  0 <= r < nrows -> vsize (next_row board r) = ncols.
Proof using Hrect.
  clear Hnrows Hncols.
  intros Hr. destruct (board_row board nrows ncols Hrect r Hr) as (row & Hrow & Hsz).
  unfold next_row, vsize. rewrite length_map, length_seqZ, Hrow. cbn.
  unfold vsize in *. lia.
Qed.

(** The inner loop of a row task computes [next_row]. *)
Lemma new_row_loop r row :
  0 <= r < nrows -> board !! Z.to_nat r = Some row ->
  for_each (seqZ 0 (vsize row)) (fun i new_row =>
    let* b := Par.updateCell r i board in Ok (new_row ++ [Z.b2z b])) []
  = Ok (next_row board r).
Proof.
  intros Hr Hrow.
  destruct (board_row board nrows ncols Hrect r Hr) as (row' & Hrow' & Hsz).
  assert (row' = row) as -> by congruence.
  edestruct (for_each_foldl (fun _ : list Z => True)
               (fun acc i => acc ++ [next_cell board r i])) as [-> _];
    [done| |].
  - intros i acc Hi _. apply elem_of_seqZ in Hi. cbv beta.
    rewrite (updateCell_eval board nrows ncols) by (done || lia). done.
  - rewrite foldl_snoc. unfold next_row. by rewrite Hrow.
Qed.

Lemma row_task_write r new_board :
  0 <= r < nrows -> vsize new_board = nrows ->
  Par.row_task board r new_board = Ok (write_row board new_board r).
Proof.
  intros Hr Hlen. unfold Par.row_task.
  destruct (board_row board nrows ncols Hrect r Hr) as (row & Hrow & Hsz).
  rewrite to_size_t_id by lia.
  rewrite (vec_at_lookup _ _ _ (proj1 Hr) Hrow). cbn [bind].
  rewrite (new_row_loop r row Hr Hrow). cbn [bind].
  unfold vec_set. destruct (Z.ltb_spec r (vsize new_board)); [done|lia].
Qed.

Lemma vsize_write_row new_board r :
  vsize (write_row board new_board r) = vsize new_board.
Proof using Type. unfold write_row, vsize. by rewrite length_insert. Qed.

(** Row tasks executed in any order [rs] are the fold of [write_row]. *)
Lemma run_rows rs new_board :
  Forall (fun r => 0 <= r < nrows) rs -> vsize new_board = nrows ->
  for_each rs (Par.row_task board) new_board
  = Ok (foldl (write_row board) new_board rs)
  /\ vsize (foldl (write_row board) new_board rs) = nrows.
Proof.
  intros Hrs Hlen.
  apply (for_each_foldl (fun nb : list (list Z) => vsize nb = nrows)); [done|].
  intros r nb Hr Hnb. rewrite Forall_forall in Hrs.
  split; [by apply row_task_write; [apply Hrs|]|].
  by rewrite vsize_write_row.
Qed.

Lemma lookup_written rs new_board (k : nat) :
  Forall (fun r => 0 <= r < nrows) rs -> vsize new_board = nrows ->
  Z.of_nat k ∈ rs ->
  foldl (write_row board) new_board rs !! k = Some (next_row board (Z.of_nat k)).
Proof.
  revert new_board. induction rs as [|r rs IH] using rev_ind;
    intros nb Hrs Hlen Hk.
  { by apply elem_of_nil in Hk. }
  rewrite foldl_app. cbn.
  rewrite Forall_app, Forall_singleton in Hrs. destruct Hrs as [Hrs Hr].
  pose proof (run_rows rs nb Hrs Hlen) as [_ Hlen'].
  unfold write_row at 1.
  destruct (decide (Z.to_nat r = k)) as [<-|Hne].
  - rewrite list_lookup_insert_eq by (unfold vsize in Hlen'; lia).
    by rewrite Z2Nat.id by lia.
  - rewrite list_lookup_insert_ne by done.
    apply IH; [done..|].
    apply elem_of_app in Hk as [Hk|Hk]; [done|].
    apply list_elem_of_singleton in Hk. lia.
Qed.

Lemma lookup_life_step (k : nat) :
  Z.of_nat k < nrows -> life_step board !! k = Some (next_row board (Z.of_nat k)).
Proof using Hrect.
  clear Hnrows Hncols.
  intros Hk. unfold life_step. rewrite list_lookup_fmap.
  replace (vsize board) with nrows by (symmetry; apply Hrect).
  by rewrite lookup_seqZ_lt.
Qed.

Lemma length_life_step : vsize (life_step board) = nrows.
Proof using Hrect.
  clear Hnrows Hncols.
  unfold life_step, vsize at 1. rewrite length_map, length_seqZ.
  destruct Hrect as [<- _]. unfold vsize. lia.
Qed.

(** Any order of the rows 0, ..., nrows-1 builds the next generation. *)
Lemma run_all_rows rs new_board :
  rs ≡ₚ seqZ 0 nrows -> vsize new_board = nrows ->
  for_each rs (Par.row_task board) new_board = Ok (life_step board).
Proof.
  intros Hperm Hlen.
  assert (Forall (fun r => 0 <= r < nrows) rs) as Hrs.
  { rewrite Hperm. apply Forall_seqZ. lia. }
  destruct (run_rows rs new_board Hrs Hlen) as [-> Hlen']. f_equal.
  apply list_eq. intros k.
  destruct (decide (Z.of_nat k < nrows)) as [Hk|Hk].
  - rewrite lookup_life_step by done. apply lookup_written; [done..|].
    rewrite Hperm. apply elem_of_seqZ. lia.
  - rewrite !lookup_ge_None_2; [done| |].
    + pose proof length_life_step. unfold vsize in *. lia.
    + unfold vsize in *. lia.
Qed.

End rows.

(** ** The partition of the rows *)

Lemma to_int_to_size_t z : to_int (to_size_t z) = to_int z.
Proof.
  unfold to_int, to_size_t. f_equal.
  rewrite (Z.div_mod z 18446744073709551616) at 2 by lia.
  replace (18446744073709551616 * (z / 18446744073709551616)
           + z mod 18446744073709551616 + 2147483648)
    with (z mod 18446744073709551616 + 2147483648
          + (4294967296 * (z / 18446744073709551616)) * 4294967296) by lia.
  by rewrite Z_mod_plus_full.
Qed.

Section partition.

Variables (size nworkers : Z).
Hypothesis Hsize : 0 <= size <= INT_MAX.
Hypothesis Hnw : 1 <= nworkers <= INT_MAX.

Lemma div_mod_workers :
  size = nworkers * (size / nworkers) + size mod nworkers
  /\ 0 <= size mod nworkers < nworkers /\ 0 <= size / nworkers.
Proof.
  split; [apply Z.div_mod; lia|].
  split; [apply Z.mod_pos_bound; lia|apply Z.div_pos; lia].
Qed.

(** Where the [k]-th range starts: after [k] ranges of [base] rows, the
    first [rem] of them one row longer. *)
Lemma start_bounds k :
  0 <= k <= nworkers ->
  0 <= k * (size / nworkers) + Z.min k (size mod nworkers) <= size.
Proof.
  intros Hk. destruct div_mod_workers as (Hdm & Hrem & Hbase).
  pose proof (Z.mul_le_mono_nonneg_r k nworkers (size / nworkers) Hbase (proj2 Hk)).
  pose proof (Z.mul_nonneg_nonneg k (size / nworkers) (proj1 Hk) Hbase).
  lia.
Qed.

Lemma range_of_next k :
  0 <= k < nworkers ->
  end_ (range_of size nworkers k) + 1 = start (range_of size nworkers (k + 1)).
Proof.
  intros Hk. unfold range_of. cbn.
  destruct div_mod_workers as (Hdm & Hrem & Hbase).
  destruct (Z.ltb_spec k (size mod nworkers)); lia.
Qed.

Lemma range_of_last :
  end_ (range_of size nworkers (nworkers - 1)) = size - 1.
Proof.
  unfold range_of. cbn. destruct div_mod_workers as (Hdm & Hrem & Hbase).
  destruct (Z.ltb_spec (nworkers - 1) (size mod nworkers)); lia.
Qed.

Lemma range_of_end_bounds k :
  0 <= k < nworkers -> -1 <= end_ (range_of size nworkers k) <= size - 1.
Proof.
  intros Hk. pose proof (range_of_next k Hk) as Hnext.
  pose proof (start_bounds (k + 1)) as Hstart.
  unfold range_of at 2 in Hnext. cbn [start] in Hnext. lia.
Qed.

(** The body of the loop of [build_ranges] adds the [k]-th range. *)
Lemma build_ranges_step (k : nat) :
  Z.of_nat k < nworkers ->
  (let* start_i :=
     if Z.of_nat k =? 0 then Ok 0
     else match last (map (range_of size nworkers) (seqZ 0 (Z.of_nat k))) with
          | Some back => Ok (int_add (end_ back) 1)
          | None => Err undefined_behaviour
          end in
   let end_i :=
     to_int (if negb (Z.of_nat k =? int_add nworkers (-1))
             then to_size_t (to_size_t start_i + size / nworkers - 1)
             else to_size_t (size - 1)) in
   let end_i := if to_size_t (Z.of_nat k) <? size mod nworkers
                then int_add end_i 1 else end_i in
   Ok (map (range_of size nworkers) (seqZ 0 (Z.of_nat k))
       ++ [mkRange start_i end_i]))
  = Ok (map (range_of size nworkers) (seqZ 0 (Z.of_nat (S k)))).
Proof.
  intros Hk. destruct div_mod_workers as (Hdm & Hrem & Hbase).
  assert ((if Z.of_nat k =? 0 then Ok 0
           else match last (map (range_of size nworkers) (seqZ 0 (Z.of_nat k))) with
                | Some back => Ok (int_add (end_ back) 1)
                | None => Err undefined_behaviour
                end) = Ok (start (range_of size nworkers (Z.of_nat k)))) as ->.
  { destruct k as [|k'].
    - cbn. f_equal. lia.
    - destruct (Z.eqb_spec (Z.of_nat (S k')) 0); [lia|].
      rewrite seqZ_S, map_app. cbn [map]. rewrite last_snoc.
      rewrite int_add_small.
      + rewrite range_of_next by lia.
        by replace (0 + Z.of_nat k' + 1) with (Z.of_nat (S k')) by lia.
      + pose proof (range_of_end_bounds (0 + Z.of_nat k')).
        unfold INT_MIN, INT_MAX in *. lia. }
  cbn [bind]. rewrite seqZ_S, map_app. cbn [map]. do 3 f_equal.
  pose proof (start_bounds (Z.of_nat k)) as Hstart.
  pose proof (range_of_end_bounds (Z.of_nat k)) as Hend.
  specialize (Hstart ltac:(lia)). specialize (Hend ltac:(lia)).
  rewrite (int_add_small nworkers (-1)) by (unfold INT_MIN, INT_MAX in *; lia).
  rewrite (to_size_t_id (Z.of_nat k)) by lia.
  replace (0 + Z.of_nat k) with (Z.of_nat k) by lia.
  pose proof range_of_last as Hlast.
  revert Hend Hlast. unfold range_of. cbn [start end_].
  rewrite (to_size_t_id (_ + Z.min _ _)) by lia.
  destruct (Z.ltb_spec (nworkers - 1) (size mod nworkers)); [lia|].
  destruct (Z.ltb_spec (Z.of_nat k) (size mod nworkers));
    destruct (Z.eqb_spec (Z.of_nat k) (nworkers + -1)) as [Heq|Hne];
    cbn [negb]; intros Hend Hlast; try lia; rewrite to_int_to_size_t.
  - rewrite (to_int_id (_ - 1)) by (unfold INT_MIN, INT_MAX in *; lia).
    rewrite int_add_small by (unfold INT_MIN, INT_MAX in *; lia).
    f_equal. lia.
  - rewrite to_int_id by (unfold INT_MIN, INT_MAX in *; lia).
    f_equal. replace (nworkers - 1) with (Z.of_nat k) in Hlast by lia. lia.
  - rewrite to_int_id by (unfold INT_MIN, INT_MAX in *; lia).
    f_equal. lia.
Qed.

Lemma bind_ret {A} (m : result A) : (let* a := m in Ok a) = m.
Proof. by destruct m. Qed.

(** The ranges that [updateBoard] builds, in closed form. *)
Lemma build_ranges_closed :
  Par.build_ranges size nworkers
  = Ok (map (range_of size nworkers) (seqZ 0 nworkers)).
Proof.
  unfold Par.build_ranges. rewrite to_size_t_id by lia.
  destruct (Z.eqb_spec nworkers 0); [lia|]. cbv zeta.
  match goal with
  | |- for_each _ ?body _ = _ =>
      assert (forall k : nat, Z.of_nat k <= nworkers ->
                for_each (seqZ 0 (Z.of_nat k)) body []
                = Ok (map (range_of size nworkers) (seqZ 0 (Z.of_nat k))))
        as Hprefix
  end.
  { induction k as [|k IH]; intros Hle; [done|].
    rewrite seqZ_S at 1. rewrite for_each_app, IH by lia.
    cbn [bind for_each]. rewrite bind_ret, Z.add_0_l.
    apply build_ranges_step. lia. }
  specialize (Hprefix (Z.to_nat nworkers)).
  rewrite Z2Nat.id in Hprefix by lia. apply Hprefix. lia.
Qed.

(** The rows of the first [k] ranges are the rows before the [k]-th start. *)
Lemma chunk_rows_prefix (k : nat) :
  Z.of_nat k <= nworkers ->
  concat (map Par.chunk_rows
            (map (range_of size nworkers) (seqZ 0 (Z.of_nat k))))
  = seqZ 0 (start (range_of size nworkers (Z.of_nat k))).
Proof.
  induction k as [|k IH]; intros Hk.
  { change (Z.of_nat 0) with 0. unfold range_of at 2. cbn [start].
    replace (0 * (size / nworkers) + Z.min 0 (size mod nworkers)) with 0;
      [reflexivity|destruct div_mod_workers as (_ & ? & _); lia]. }
  rewrite seqZ_S, !map_app, concat_app, IH by lia. cbn [map concat].
  rewrite app_nil_r, Z.add_0_l. unfold Par.chunk_rows.
  pose proof (start_bounds (Z.of_nat k)) as Hstart.
  pose proof (range_of_next (Z.of_nat k)) as Hnext.
  pose proof (start_bounds (Z.of_nat k + 1)) as Hstart'.
  replace (Z.of_nat (S k)) with (Z.of_nat k + 1) by lia.
  rewrite <- Hnext by lia.
  unfold range_of in *. cbn [start end_] in *.
  rewrite <- (Z.add_0_l (_ + Z.min _ _)) at 2.
  rewrite <- seqZ_app; [f_equal; lia|lia|].
  destruct (Z.ltb_spec (Z.of_nat k) (size mod nworkers));
    destruct div_mod_workers as (_ & _ & ?); lia.
Qed.

Lemma chunk_rows_all :
  concat (map Par.chunk_rows
            (map (range_of size nworkers) (seqZ 0 nworkers)))
  = seqZ 0 size.
Proof.
  rewrite <- (Z2Nat.id nworkers) at 2 by lia.
  rewrite chunk_rows_prefix by lia. f_equal.
  rewrite Z2Nat.id by lia. unfold range_of. cbn [start].
  destruct div_mod_workers as (Hdm & Hrem & Hbase). lia.
Qed.

End partition.

(** ** One step of the board *)

Lemma map_result_map {A B} (f : A -> result B) (g : A -> B) (l : list A) :
  (forall x, x ∈ l -> f x = Ok (g x)) -> map_result f l = Ok (map g l).
Proof.
  induction l as [|x l IH]; intros Hf; cbn; [done|].
  rewrite Hf by left. cbn. rewrite IH; [done|].
  intros y Hy. apply Hf. by right.
Qed.

Lemma interleaving_perm {A} (chunks : list (list A)) sched :
  interleaving chunks sched -> sched ≡ₚ concat chunks.
Proof.
  induction 1 as [chunks Hnil|chunks1 x c chunks2 sched _ IH].
  - induction Hnil as [|c chunks -> _ IH]; [done|]. cbn. apply IH.
  - rewrite concat_app in *. cbn in *. rewrite IH.
    by rewrite Permutation_middle.
Qed.

Lemma row_task_omp_par : Omp.row_task = Par.row_task.
Proof. reflexivity. Qed.

Section step.

Variables (board : Board) (nrows ncols : Z).
Hypothesis Hrect : rectangular board nrows ncols.
Hypothesis Hnrows : nrows <= INT_MAX.
Hypothesis Hncols : ncols <= INT_MAX.

Lemma nrows_nonneg : 0 <= nrows.
Proof using Hrect.
  clear Hnrows Hncols. destruct Hrect as [<- _]. unfold vsize. lia. Qed.

Lemma vsize_blank : vsize (replicate (length board) ([] : list Z)) = nrows.
Proof using Hrect.
  clear Hnrows Hncols. destruct Hrect as [<- _]. unfold vsize. by rewrite length_replicate. Qed.

(** The threads version, run in the order of creation of the threads. *)
Lemma updateBoard_par_eval nworkers :
  1 <= nworkers <= INT_MAX ->
  Par.updateBoard board nworkers = Ok (life_step board).
Proof.
  intros Hnw. unfold Par.updateBoard.
  replace (vsize board) with nrows by (symmetry; apply Hrect).
  pose proof nrows_nonneg.
  rewrite build_ranges_closed by lia. cbn [bind].
  change (Par.compute_chunk board)
    with (fun rg s => for_each (Par.chunk_rows rg) (Par.row_task board) s).
  rewrite for_each_chunks, chunk_rows_all by lia.
  by apply (run_all_rows board nrows ncols); [..|apply vsize_blank].
Qed.

(** The OpenMP version, with the iterations in increasing order. *)
Lemma updateBoard_omp_eval nw :
  Omp.updateBoard board nw = Ok (life_step board).
Proof.
  unfold Omp.updateBoard, Omp.run_schedule. rewrite row_task_omp_par.
  replace (vsize board) with nrows by (symmetry; apply Hrect).
  by apply (run_all_rows board nrows ncols); [..|apply vsize_blank].
Qed.

(** Any order of the row tasks gives the same board. *)
Lemma run_schedule_eval sched :
  sched ≡ₚ seqZ 0 nrows ->
  Par.run_schedule board sched = Ok (life_step board).
Proof.
  intros Hperm. unfold Par.run_schedule.
  by apply (run_all_rows board nrows ncols); [..|apply vsize_blank].
Qed.

Lemma sequential_step_eval : sequential_step board = Ok (life_step board).
Proof.
  unfold sequential_step, life_step. apply map_result_map.
  intros r Hr. apply elem_of_seqZ in Hr.
  replace (vsize board) with nrows in Hr by (symmetry; apply Hrect).
  destruct (board_row board nrows ncols Hrect r) as (row & Hrow & Hsz); [lia|].
  rewrite (vec_at_lookup board r row) by (done || lia). cbn [bind].
  unfold next_row. rewrite Hrow. cbn [default]. apply map_result_map.
  intros c Hc. apply elem_of_seqZ in Hc. cbv [id] in Hc.
  by rewrite (updateCell_eval board nrows ncols) by (done || lia).
Qed.

(** Shape and contents of the next generation. *)
Lemma life_step_rectangular : rectangular (life_step board) nrows ncols.
Proof using Hrect.
  clear Hnrows Hncols.
  split; [by apply length_life_step with ncols|].
  unfold life_step. apply Forall_fmap, Forall_seqZ. intros r Hr. cbn.
  apply (length_next_row board nrows ncols Hrect).
  destruct Hrect as [<- _]. lia.
Qed.

Lemma life_step_binary : binary_board (life_step board).
Proof using Type.
  unfold binary_board, life_step. apply Forall_fmap, Forall_forall.
  intros r _. cbn. unfold next_row. apply Forall_fmap, Forall_forall.
  intros c _. cbn. unfold next_cell. destruct (life_rule _ _); cbn; lia.
Qed.

End step.

(** With a negative worker count no range is built and no thread is
    started: the new board keeps its empty rows. *)
Lemma updateBoard_par_negative (board : Board) nworkers :
  INT_MIN <= nworkers < 0 ->
  Par.updateBoard board nworkers = Ok (replicate (length board) []).
Proof.
  intros Hnw. unfold Par.updateBoard, Par.build_ranges.
  assert (to_size_t nworkers = 18446744073709551616 + nworkers) as ->.
  { unfold to_size_t, INT_MIN in *.
    rewrite <- (Z_mod_plus_full nworkers 1). rewrite Z.mod_small; lia. }
  destruct (Z.eqb_spec (18446744073709551616 + nworkers) 0) as [Heq|_].
  { unfold INT_MIN in *. lia. }
  cbv zeta. by rewrite seqZ_nil by lia.
Qed.

(** ** Dead boards *)

Lemma cell_or_zero_dead board r c : all_dead board -> cell_or_zero board r c = 0.
Proof.
  intros Hdead. unfold cell_or_zero.
  destruct ((0 <=? r) && (0 <=? c)); [|done].
  destruct (board !! Z.to_nat r) as [row|] eqn:Hrow; [|done].
  destruct (row !! Z.to_nat c) as [v|] eqn:Hv; [|done].
  cbn. apply (Forall_lookup_1 _ _ _ _ Hdead) in Hrow.
  by apply (Forall_lookup_1 _ _ _ _ Hrow) in Hv.
Qed.

Lemma next_cell_dead board r c : all_dead board -> next_cell board r c = 0.
Proof.
  intros Hdead. unfold next_cell, neighbour_sum, neighbour_offsets.
  cbn -[cell_or_zero Z.add to_int]. by rewrite !cell_or_zero_dead.
Qed.

Lemma life_step_dead board nrows ncols :
  rectangular board nrows ncols -> all_dead board -> life_step board = board.
Proof.
  intros Hrect Hdead. apply list_eq. intros k.
  destruct (decide (Z.of_nat k < nrows)) as [Hk|Hk].
  - rewrite (lookup_life_step board nrows ncols) by done.
    destruct (board_row board nrows ncols Hrect (Z.of_nat k)) as (row & Hrow & Hsz);
      [lia|].
    rewrite Nat2Z.id in Hrow. rewrite Hrow. f_equal.
    unfold next_row. rewrite Nat2Z.id, Hrow. cbn [default from_option id].
    apply (Forall_lookup_1 _ _ _ _ Hdead) in Hrow as Hzero.
    apply list_eq. intros j. rewrite list_lookup_fmap.
    destruct (decide (Z.of_nat j < vsize row)) as [Hj|Hj].
    + rewrite lookup_seqZ_lt by done. cbn.
      rewrite next_cell_dead by done.
      destruct (lookup_lt_is_Some_2 row j) as [v Hv]; [unfold vsize in Hj; lia|].
      rewrite Hv. by rewrite (Forall_lookup_1 _ _ _ _ Hzero Hv).
    + rewrite lookup_seqZ_ge by lia. cbn.
      by rewrite lookup_ge_None_2 by (unfold vsize in Hj; lia).
  - pose proof (length_life_step board nrows ncols Hrect) as Hlen.
    destruct Hrect as [Hlen' _]. unfold vsize in Hlen, Hlen'.
    rewrite (lookup_ge_None_2 (life_step board)) by lia.
    by rewrite (lookup_ge_None_2 board) by lia.
Qed.

(** ** Several steps *)

Lemma iterate_life_step (step : Board -> result Board) nrows ncols :
  nrows <= INT_MAX -> ncols <= INT_MAX ->
  (forall board, rectangular board nrows ncols -> step board = Ok (life_step board)) ->
  forall n board, rectangular board nrows ncols ->
    iterate n step board = Ok (Nat.iter n life_step board)
    /\ rectangular (Nat.iter n life_step board) nrows ncols.
Proof.
  intros Hnrows Hncols Hstep.
  assert (forall n board, rectangular board nrows ncols ->
            rectangular (Nat.iter n life_step board) nrows ncols) as Hshape.
  { induction n as [|n IH]; intros board Hrect; cbn; [done|].
    by apply life_step_rectangular, IH. }
  intros n board Hrect. split; [|by apply Hshape].
  revert board Hrect. induction n as [|n IH]; intros board Hrect; [done|].
  cbn [iterate]. rewrite Hstep by done. cbn [bind].
  rewrite IH by (by apply life_step_rectangular). f_equal.
  cbn [Nat.iter nat_rect]. apply Nat.iter_swap.
Qed.

(** * The properties of the specification *)

Lemma blinker_rectangular : rectangular blinker 5 5.
Proof. split; [reflexivity|]. repeat constructor. Defined.

Lemma blinker_bounds : 5 <= INT_MAX.
Proof. unfold INT_MAX. lia. Defined.

(** C1. On a rectangular board and at a cell [(r, c)] of it, [updateCell]
    (in both files) returns the next state of the game: the count is the
    [int] sum of the up to eight neighbours of the 3x3 block around the
    cell, a position outside the board counting for 0 (no wrap-around); an
    alive cell is alive next iff the count is 2 or 3, a dead cell iff it is
    exactly 3. On a board of 0/1 cells the [int] sum is the number of alive
    neighbours, between 0 and 8. The dimensions are [int]s, as in
    [initializeBoard]. *)
Theorem updateCell_game_of_life (board : Board) (nrows ncols r c : Z) :
  rectangular board nrows ncols ->
  nrows <= INT_MAX -> ncols <= INT_MAX ->
  0 <= r < nrows -> 0 <= c < ncols ->
  Par.updateCell r c board
  = Ok (life_rule (nonzero (cell_or_zero board r c))
                  (to_int (neighbour_sum board r c)))
  /\ Omp.updateCell r c board
     = Ok (life_rule (nonzero (cell_or_zero board r c))
                     (to_int (neighbour_sum board r c)))
  /\ (binary_board board ->
      to_int (neighbour_sum board r c) = neighbour_sum board r c
      /\ 0 <= neighbour_sum board r c <= 8).
Proof.
  intros Hrect Hnrows Hncols Hr Hc.
  rewrite updateCell_omp_par.
  rewrite (updateCell_eval board nrows ncols) by done.
  split; [done|]. split; [done|]. intros Hbin.
  pose proof (neighbour_sum_binary board r c Hbin) as Hsum.
  split; [|done]. apply to_int_id. unfold INT_MIN, INT_MAX. lia.
Qed.

Lemma updateCell_game_of_life_witness :
  Par.updateCell 1 2 blinker
  = Ok (life_rule (nonzero (cell_or_zero blinker 1 2))
                  (to_int (neighbour_sum blinker 1 2)))
  /\ Omp.updateCell 1 2 blinker
     = Ok (life_rule (nonzero (cell_or_zero blinker 1 2))
                     (to_int (neighbour_sum blinker 1 2)))
  /\ (binary_board blinker ->
      to_int (neighbour_sum blinker 1 2) = neighbour_sum blinker 1 2
      /\ 0 <= neighbour_sum blinker 1 2 <= 8).
Proof.
  apply (updateCell_game_of_life blinker 5 5 1 2 blinker_rectangular
           blinker_bounds blinker_bounds); lia.
Defined.

(** C9. On a rectangular board and at a cell [(r, c)] of it, every
    [at] of [updateCell] is within bounds: the two reads of the centre
    succeed and the call returns a state, so [out_of_range] is not
    raised, in both files. *)
Theorem updateCell_in_bounds (board : Board) (nrows ncols r c : Z) :
  rectangular board nrows ncols ->
  nrows <= INT_MAX -> ncols <= INT_MAX ->
  0 <= r < nrows -> 0 <= c < ncols ->
  (exists row v, vec_at board (to_size_t r) = Ok row
                 /\ vec_at row (to_size_t c) = Ok v)
  /\ (exists b, Par.updateCell r c board = Ok b)
  /\ (exists b, Omp.updateCell r c board = Ok b).
Proof.
  intros Hrect Hnrows Hncols Hr Hc.
  destruct (centre_cell board nrows ncols Hrect Hnrows Hncols r c Hr Hc)
    as (row & Hrow & Hv).
  split; [by eauto|].
  rewrite updateCell_omp_par, (updateCell_eval board nrows ncols) by done.
  by eauto.
Qed.

Lemma updateCell_in_bounds_witness :
  (exists row v, vec_at blinker (to_size_t 4) = Ok row
                 /\ vec_at row (to_size_t 0) = Ok v)
  /\ (exists b, Par.updateCell 4 0 blinker = Ok b)
  /\ (exists b, Omp.updateCell 4 0 blinker = Ok b).
Proof.
  apply (updateCell_in_bounds blinker 5 5 4 0 blinker_rectangular
           blinker_bounds blinker_bounds); lia.
Defined.

(** C2. For a rectangular board and [1 <= nworkers <= nrows], one call of
    the threads version of [updateBoard] gives the board that applying
    [updateCell] to every cell of the prior board in sequence gives; every
    interleaving of the row tasks of the threads gives that board too; and
    for any two worker counts in [1, nrows] the boards agree after every
    number of steps, with the sequential steps as well. *)
Theorem updateBoard_par_sequential (board : Board) (nrows ncols nworkers : Z) :
  rectangular board nrows ncols ->
  nrows <= INT_MAX -> ncols <= INT_MAX ->
  1 <= nworkers <= nrows ->
  (exists b', Par.updateBoard board nworkers = Ok b'
              /\ sequential_step board = Ok b')
  /\ (forall ranges sched,
        Par.build_ranges (vsize board) nworkers = Ok ranges ->
        interleaving (map Par.chunk_rows ranges) sched ->
        Par.run_schedule board sched = Par.updateBoard board nworkers)
  /\ (forall nworkers' n, 1 <= nworkers' <= nrows ->
        exists b',
          iterate n (fun b => Par.updateBoard b nworkers) board = Ok b'
          /\ iterate n (fun b => Par.updateBoard b nworkers') board = Ok b'
          /\ iterate n sequential_step board = Ok b').
Proof.
  intros Hrect Hnrows Hncols Hnw.
  pose proof (nrows_nonneg board nrows ncols Hrect) as Hpos.
  split; [|split].
  - exists (life_step board).
    rewrite (updateBoard_par_eval board nrows ncols) by (done || lia).
    by rewrite (sequential_step_eval board nrows ncols).
  - intros ranges sched Hranges Hsched.
    replace (vsize board) with nrows in Hranges by (symmetry; apply Hrect).
    rewrite build_ranges_closed in Hranges by lia.
    injection Hranges as <-. apply interleaving_perm in Hsched.
    rewrite chunk_rows_all in Hsched by lia.
    rewrite (run_schedule_eval board nrows ncols) by done.
    by rewrite (updateBoard_par_eval board nrows ncols) by (done || lia).
  - intros nworkers' n Hnw'. exists (Nat.iter n life_step board).
    split; [|split]; apply (iterate_life_step _ nrows ncols); try done.
    + intros b Hb. apply (updateBoard_par_eval b nrows ncols); (done || lia).
    + intros b Hb. apply (updateBoard_par_eval b nrows ncols); (done || lia).
    + intros b Hb. by apply (sequential_step_eval b nrows ncols).
Qed.

Lemma updateBoard_par_sequential_witness :
  (exists b', Par.updateBoard blinker 2 = Ok b'
              /\ sequential_step blinker = Ok b')
  /\ (forall ranges sched,
        Par.build_ranges (vsize blinker) 2 = Ok ranges ->
        interleaving (map Par.chunk_rows ranges) sched ->
        Par.run_schedule blinker sched = Par.updateBoard blinker 2)
  /\ (forall nworkers' n, 1 <= nworkers' <= 5 ->
        exists b',
          iterate n (fun b => Par.updateBoard b 2) blinker = Ok b'
          /\ iterate n (fun b => Par.updateBoard b nworkers') blinker = Ok b'
          /\ iterate n sequential_step blinker = Ok b').
Proof.
  apply (updateBoard_par_sequential blinker 5 5 2 blinker_rectangular
           blinker_bounds blinker_bounds); lia.
Defined.

(** C4. For a rectangular board and [1 <= nworkers <= nrows], one step of
    the threads version and one step of the OpenMP version give the same
    board, in whatever order the dynamic schedule hands out the rows. *)
Theorem updateBoard_par_omp (board : Board) (nrows ncols nworkers : Z) :
  rectangular board nrows ncols ->
  nrows <= INT_MAX -> ncols <= INT_MAX ->
  1 <= nworkers <= nrows ->
  exists b', Par.updateBoard board nworkers = Ok b'
    /\ Omp.updateBoard board nworkers = Ok b'
    /\ forall sched, sched ≡ₚ seqZ 0 (vsize board) ->
         Omp.run_schedule board sched = Ok b'.
Proof.
  intros Hrect Hnrows Hncols Hnw. exists (life_step board).
  rewrite (updateBoard_par_eval board nrows ncols) by (done || lia).
  rewrite (updateBoard_omp_eval board nrows ncols) by done.
  split; [done|]. split; [done|]. intros sched Hsched.
  replace (vsize board) with nrows in Hsched by (symmetry; apply Hrect).
  unfold Omp.run_schedule. rewrite row_task_omp_par.
  by apply (run_schedule_eval board nrows ncols).
Qed.

Lemma updateBoard_par_omp_witness :
  exists b', Par.updateBoard blinker 3 = Ok b'
    /\ Omp.updateBoard blinker 3 = Ok b'
    /\ forall sched, sched ≡ₚ seqZ 0 (vsize blinker) ->
         Omp.run_schedule blinker sched = Ok b'.
Proof.
  apply (updateBoard_par_omp blinker 5 5 3 blinker_rectangular
           blinker_bounds blinker_bounds); lia.
Defined.

Lemma square2_rectangular : rectangular square2 2 2.
Proof. split; [reflexivity|]. repeat constructor. Defined.

Lemma small_bounds : 2 <= INT_MAX.
Proof. unfold INT_MAX. lia. Defined.

(** C5. For a rectangular board and a worker count of at least 1, a call
    of [updateBoard], in either version, returns a board with the same
    number of rows and the same length of every row. *)
Theorem updateBoard_shape (board : Board) (nrows ncols nworkers : Z) :
  rectangular board nrows ncols ->
  nrows <= INT_MAX -> ncols <= INT_MAX ->
  1 <= nworkers <= INT_MAX ->
  (exists b', Par.updateBoard board nworkers = Ok b'
              /\ rectangular b' nrows ncols)
  /\ (exists b', Omp.updateBoard board nworkers = Ok b'
                 /\ rectangular b' nrows ncols).
Proof.
  intros Hrect Hnrows Hncols Hnw.
  split; exists (life_step board).
  - rewrite (updateBoard_par_eval board nrows ncols) by done.
    split; [done|by apply life_step_rectangular].
  - rewrite (updateBoard_omp_eval board nrows ncols) by done.
    split; [done|by apply life_step_rectangular].
Qed.

Lemma updateBoard_shape_witness :
  (exists b', Par.updateBoard square2 7 = Ok b' /\ rectangular b' 2 2)
  /\ (exists b', Omp.updateBoard square2 7 = Ok b' /\ rectangular b' 2 2).
Proof.
  apply (updateBoard_shape square2 2 2 7 square2_rectangular
           small_bounds small_bounds).
  unfold INT_MAX. lia.
Defined.

Lemma blank_dead (n : nat) : all_dead (replicate n []).
Proof. by apply Forall_replicate. Qed.

Lemma blank_binary (n : nat) : binary_board (replicate n []).
Proof. by apply Forall_replicate. Qed.

Lemma blank_fixed (n : nat) nworkers :
  INT_MIN <= nworkers < 0 ->
  Par.updateBoard (replicate n []) nworkers = Ok (replicate n []).
Proof.
  intros Hnw. rewrite updateBoard_par_negative by done.
  by rewrite length_replicate.
Qed.

(** C6. On a rectangular board without alive cells, any number of calls
    of [updateBoard] returns a board without alive cells. For the threads
    version the worker count is any [int] for which the division is
    defined, for the OpenMP version any positive [int]. *)
Theorem dead_board_absorbing (board : Board) (nrows ncols nworkers : Z) (n : nat) :
  rectangular board nrows ncols ->
  nrows <= INT_MAX -> ncols <= INT_MAX ->
  all_dead board ->
  INT_MIN <= nworkers <= INT_MAX -> nworkers <> 0 ->
  (exists b', iterate n (fun b => Par.updateBoard b nworkers) board = Ok b'
              /\ all_dead b')
  /\ (1 <= nworkers ->
      exists b', iterate n (fun b => Omp.updateBoard b nworkers) board = Ok b'
                 /\ all_dead b').
Proof.
  intros Hrect Hnrows Hncols Hdead Hint Hnz. split; [|intros _].
  - destruct (decide (1 <= nworkers)) as [Hpos|Hneg].
    + exists board. split; [|done]. apply iterate_fixed.
      rewrite (updateBoard_par_eval board nrows ncols) by (done || lia).
      by rewrite (life_step_dead board nrows ncols).
    + destruct n as [|n]; [by exists board|].
      exists (replicate (length board) []). split; [|apply blank_dead].
      cbn [iterate]. rewrite updateBoard_par_negative by lia. cbn [bind].
      apply iterate_fixed, blank_fixed. lia.
  - exists board. split; [|done]. apply iterate_fixed.
    rewrite (updateBoard_omp_eval board nrows ncols) by done.
    by rewrite (life_step_dead board nrows ncols).
Qed.

Lemma dead3_rectangular : rectangular dead3 3 3.
Proof. split; [reflexivity|]. repeat constructor. Defined.

Lemma dead3_dead : all_dead dead3.
Proof. repeat constructor. Defined.

Lemma dead_board_absorbing_witness :
  (exists b', iterate 4 (fun b => Par.updateBoard b 2) dead3 = Ok b'
              /\ all_dead b')
  /\ (exists b', iterate 4 (fun b => Omp.updateBoard b 2) dead3 = Ok b'
                 /\ all_dead b').
Proof.
  destruct (dead_board_absorbing dead3 3 3 2 4 dead3_rectangular)
    as [Hpar Homp];
    try apply dead3_dead; try (unfold INT_MIN, INT_MAX; lia).
  split; [exact Hpar|]. apply Homp. lia.
Defined.

(** C10. On a rectangular board whose cells are any integers, a call of
    [updateBoard], in either version, returns a board whose cells are all
    0 or 1. For the threads version the worker count is any [int] for
    which the division is defined, for the OpenMP version any positive
    [int]. *)
Theorem updateBoard_binary_cells (board : Board) (nrows ncols nworkers : Z) :
  rectangular board nrows ncols ->
  nrows <= INT_MAX -> ncols <= INT_MAX ->
  INT_MIN <= nworkers <= INT_MAX -> nworkers <> 0 ->
  (exists b', Par.updateBoard board nworkers = Ok b' /\ binary_board b')
  /\ (1 <= nworkers ->
      exists b', Omp.updateBoard board nworkers = Ok b' /\ binary_board b').
Proof.
  intros Hrect Hnrows Hncols Hint Hnz. split; [|intros _].
  - destruct (decide (1 <= nworkers)) as [Hpos|Hneg].
    + exists (life_step board).
      rewrite (updateBoard_par_eval board nrows ncols) by (done || lia).
      split; [done|apply life_step_binary].
    + exists (replicate (length board) []).
      rewrite updateBoard_par_negative by lia.
      split; [done|apply blank_binary].
  - exists (life_step board).
    rewrite (updateBoard_omp_eval board nrows ncols) by done.
    split; [done|apply life_step_binary].
Qed.

Lemma updateBoard_binary_cells_witness :
  (exists b', Par.updateBoard [[7; -3]; [2147483647; 1]] 2 = Ok b'
              /\ binary_board b')
  /\ (exists b', Omp.updateBoard [[7; -3]; [2147483647; 1]] 2 = Ok b'
                 /\ binary_board b').
Proof.
  destruct (updateBoard_binary_cells [[7; -3]; [2147483647; 1]] 2 2 2)
    as [Hpar Homp];
    try (split; [reflexivity|repeat constructor]);
    try (unfold INT_MIN, INT_MAX; lia).
  split; [exact Hpar|]. apply Homp. lia.
Defined.

(** ** The ranges as a partition *)

Section ranges.

Variables (size nworkers : Z).
Hypothesis Hsize : 0 <= size <= INT_MAX.
Hypothesis Hnw : 1 <= nworkers <= INT_MAX.

Lemma lookup_ranges (i : nat) rg :
  map (range_of size nworkers) (seqZ 0 nworkers) !! i = Some rg ->
  rg = range_of size nworkers (Z.of_nat i) /\ Z.of_nat i < nworkers.
Proof using Type.
  intros Hrg. apply list_lookup_fmap_Some_1 in Hrg as (k & -> & Hk).
  apply lookup_seqZ in Hk as [-> Hlt]. by rewrite Z.add_0_l.
Qed.

Lemma start_mono i j :
  0 <= i <= j -> j <= nworkers ->
  start (range_of size nworkers i) <= start (range_of size nworkers j).
Proof.
  intros Hij Hj. unfold range_of. cbn [start].
  destruct (div_mod_workers size nworkers Hsize Hnw) as (_ & _ & Hbase).
  pose proof (Z.mul_le_mono_nonneg_r i j (size / nworkers) Hbase (proj2 Hij)).
  lia.
Qed.

Lemma ranges_sorted (i j : nat) :
  (i < j)%nat -> Z.of_nat j < nworkers ->
  end_ (range_of size nworkers (Z.of_nat i))
  < start (range_of size nworkers (Z.of_nat j)).
Proof.
  intros Hij Hj.
  pose proof (range_of_next size nworkers Hsize Hnw (Z.of_nat i)) as Hnext.
  pose proof (start_mono (Z.of_nat i + 1) (Z.of_nat j)) as Hmono. lia.
Qed.

Lemma range_of_len i :
  range_len (range_of size nworkers i)
  = size / nworkers + (if i <? size mod nworkers then 1 else 0).
Proof using Type. unfold range_len, range_of. cbn [start end_]. lia. Qed.

Lemma ranges_cover r :
  0 <= r < size <->
  exists rg, rg ∈ map (range_of size nworkers) (seqZ 0 nworkers)
             /\ start rg <= r <= end_ rg.
Proof.
  rewrite <- (Z.add_0_l size) at 1. rewrite <- elem_of_seqZ.
  rewrite <- (chunk_rows_all size nworkers) by done.
  rewrite list_elem_of_In, in_concat. split.
  - intros (rows & Hrows & Hr). apply in_map_iff in Hrows as (rg & <- & Hrg).
    exists rg. split; [by apply list_elem_of_In|].
    apply list_elem_of_In, elem_of_seqZ in Hr. lia.
  - intros (rg & Hrg & Hr). exists (Par.chunk_rows rg).
    split; [apply in_map, list_elem_of_In, Hrg|].
    apply list_elem_of_In, elem_of_seqZ. lia.
Qed.

End ranges.

(** C3. For [1 <= nworkers <= nrows], with [nrows] an [int], the threads
    version of [updateBoard] builds [nworkers] inclusive ranges that are
    non-empty, contiguous, sorted and pairwise disjoint, whose union is
    [0, nrows) and whose rows in order are 0, ..., nrows-1; the first
    [nrows % nworkers] of them have [nrows / nworkers + 1] rows and the
    others [nrows / nworkers]. *)
Theorem build_ranges_partition (nrows nworkers : Z) :
  1 <= nworkers <= nrows -> nrows <= INT_MAX ->
  exists ranges,
    Par.build_ranges nrows nworkers = Ok ranges
    /\ vsize ranges = nworkers
    /\ (forall (i : nat) rg, ranges !! i = Some rg ->
          start rg <= end_ rg
          /\ range_len rg
             = nrows / nworkers
               + (if Z.of_nat i <? nrows mod nworkers then 1 else 0))
    /\ (forall (i : nat) a b,
          ranges !! i = Some a -> ranges !! S i = Some b ->
          start b = end_ a + 1)
    /\ (forall (i j : nat) a b,
          (i < j)%nat -> ranges !! i = Some a -> ranges !! j = Some b ->
          end_ a < start b)
    /\ (forall (i j : nat) a b r,
          i <> j -> ranges !! i = Some a -> ranges !! j = Some b ->
          start a <= r <= end_ a -> ~ (start b <= r <= end_ b))
    /\ (forall r, 0 <= r < nrows <->
          exists rg, rg ∈ ranges /\ start rg <= r <= end_ rg)
    /\ concat (map Par.chunk_rows ranges) = seqZ 0 nrows.
Proof.
  intros Hnw Hnrows.
  assert (0 <= nrows <= INT_MAX) as Hsize by lia.
  assert (1 <= nworkers <= INT_MAX) as Hnw' by lia.
  exists (map (range_of nrows nworkers) (seqZ 0 nworkers)).
  split; [by apply build_ranges_closed|].
  split; [unfold vsize; rewrite length_map, length_seqZ; lia|].
  assert (forall (i j : nat) a b,
            (i < j)%nat ->
            map (range_of nrows nworkers) (seqZ 0 nworkers) !! i = Some a ->
            map (range_of nrows nworkers) (seqZ 0 nworkers) !! j = Some b ->
            end_ a < start b) as Hsorted.
  { intros i j a b Hij Ha Hb.
    apply lookup_ranges in Ha as [-> _]. apply lookup_ranges in Hb as [-> Hj].
    by apply ranges_sorted. }
  assert (forall (i : nat) rg,
            map (range_of nrows nworkers) (seqZ 0 nworkers) !! i = Some rg ->
            start rg <= end_ rg
            /\ range_len rg
               = nrows / nworkers
                 + (if Z.of_nat i <? nrows mod nworkers then 1 else 0))
    as Hlen.
  { intros i rg Hrg. apply lookup_ranges in Hrg as [-> Hi].
    pose proof (range_of_len nrows nworkers (Z.of_nat i)) as Hl.
    split; [|done]. unfold range_len in Hl.
    assert (1 <= nrows / nworkers)
      by (apply Z.div_le_lower_bound; lia).
    destruct (Z.of_nat i <? nrows mod nworkers); lia. }
  split; [done|]. split; [|split; [done|split; [|split]]].
  - intros i a b Ha Hb.
    apply lookup_ranges in Ha as [-> Hi]. apply lookup_ranges in Hb as [-> _].
    rewrite (range_of_next nrows nworkers) by lia. f_equal. f_equal. lia.
  - intros i j a b r Hij Ha Hb Hra Hrb.
    destruct (decide (i < j)%nat) as [Hlt|Hge].
    + pose proof (Hsorted i j a b Hlt Ha Hb). lia.
    + pose proof (Hsorted j i b a ltac:(lia) Hb Ha). lia.
  - by apply ranges_cover.
  - by apply chunk_rows_all.
Qed.

Lemma build_ranges_partition_witness :
  exists ranges,
    Par.build_ranges 10 3 = Ok ranges
    /\ vsize ranges = 3
    /\ (forall (i : nat) rg, ranges !! i = Some rg ->
          start rg <= end_ rg
          /\ range_len rg
             = 10 / 3 + (if Z.of_nat i <? 10 mod 3 then 1 else 0))
    /\ (forall (i : nat) a b,
          ranges !! i = Some a -> ranges !! S i = Some b ->
          start b = end_ a + 1)
    /\ (forall (i j : nat) a b,
          (i < j)%nat -> ranges !! i = Some a -> ranges !! j = Some b ->
          end_ a < start b)
    /\ (forall (i j : nat) a b r,
          i <> j -> ranges !! i = Some a -> ranges !! j = Some b ->
          start a <= r <= end_ a -> ~ (start b <= r <= end_ b))
    /\ (forall r, 0 <= r < 10 <->
          exists rg, rg ∈ ranges /\ start rg <= r <= end_ rg)
    /\ concat (map Par.chunk_rows ranges) = seqZ 0 10.
Proof.
  apply (build_ranges_partition 10 3); unfold INT_MAX; lia.
Defined.

(** ** The drivers *)

Lemma fill_row_length env seed (l : list Z) (row : list Z) (k : nat) :
  length (fst (foldl (fun (st' : list Z * nat) (_ : Z) =>
                        (fst st' ++ [Z.rem (rand_after env seed (snd st')) 2],
                         S (snd st')))
                     (row, k) l))
  = (length row + length l)%nat.
Proof.
  revert row k. induction l as [|x l IH]; intros row k; cbn; [lia|].
  rewrite IH, length_app. cbn. lia.
Qed.

Lemma fill_board_shape (F : nat -> list Z * nat) (len : nat) (l : list Z)
    (b : Board) (k : nat) :
  (forall k, length (fst (F k)) = len) ->
  Forall (fun row : list Z => length row = len) b ->
  let res := foldl (fun (st : list (list Z) * nat) (_ : Z) =>
                      (fst st ++ [fst (F (snd st))], snd (F (snd st))))
                   (b, k) l in
  length (fst res) = (length b + length l)%nat
  /\ Forall (fun row : list Z => length row = len) (fst res).
Proof.
  intros HF. revert b k. induction l as [|x l IH]; intros b k Hb; cbn.
  - split; [lia|done].
  - destruct (IH (b ++ [fst (F k)]) (snd (F k))) as [Hlen Hall].
    { apply Forall_app. split; [done|]. by apply Forall_singleton. }
    split; [|done]. rewrite Hlen, length_app. cbn. lia.
Qed.

Lemma initializeBoard_rectangular env nrows ncols seed :
  rectangular (initializeBoard env nrows ncols seed)
              (Z.max 0 nrows) (Z.max 0 ncols).
Proof.
  unfold initializeBoard.
  edestruct (fill_board_shape
    (fun k => foldl (fun (st' : list Z * nat) (_ : Z) =>
                       (fst st' ++ [Z.rem (rand_after env seed (snd st')) 2],
                        S (snd st')))
                    ([], k) (seqZ 0 ncols))
    (Z.to_nat ncols) (seqZ 0 nrows) [] 0%nat) as [Hlen Hall].
  { intros k. rewrite fill_row_length, length_seqZ. cbn. lia. }
  { done. }
  split.
  - unfold vsize. cbv zeta in Hlen. rewrite Hlen, length_seqZ. cbn. lia.
  - eapply Forall_impl; [exact Hall|]. intros row Hrow. cbv beta in Hrow.
    unfold vsize. lia.
Qed.

Section drivers.

Variables (env : Env) (argv0 : string) (args : list string).
Hypothesis Hargs : vsize args = 6.

Variables (nrows ncols iters seed nw : Z).
Hypothesis Enrows : atoi env (argv argv0 args 1) = nrows.
Hypothesis Encols : atoi env (argv argv0 args 2) = ncols.
Hypothesis Eiters : atoi env (argv argv0 args 3) = iters.
Hypothesis Eseed : atoi env (argv argv0 args 4) = seed.
Hypothesis Enw : atoi env (argv argv0 args 6) = nw.

Hypothesis Hnrows : 1 <= nrows <= INT_MAX.
Hypothesis Hncols : ncols <= INT_MAX.

Lemma initial_board_rectangular :
  rectangular (initializeBoard env nrows ncols seed) nrows (Z.max 0 ncols).
Proof using Hnrows.
  clear Enrows.
  pose proof (initializeBoard_rectangular env nrows ncols seed) as Hrect.
  by replace (Z.max 0 nrows) with nrows in Hrect by lia.
Qed.

(** The threads version with six arguments and at least one worker. *)
Lemma par_main_run :
  1 <= nw <= INT_MAX ->
  Par.main env argv0 args
  = Ok (mkExit ((if nw >? nrows then warning else []) ++ report env) 0
               (Some (if nw >? nrows then nrows else nw))
               (Some (Nat.iter (Z.to_nat iters) life_step
                               (initializeBoard env nrows ncols seed)))).
Proof using All.
  intros Hnw. unfold Par.main. rewrite Hargs. cbn [Z.add Z.eqb negb Pos.add Pos.eqb Pos.succ].
  cbv zeta. rewrite Enrows, Encols, Eiters, Eseed, Enw.
  rewrite for_each_iterate.
  edestruct (iterate_life_step
               (fun b => Par.updateBoard b
                           (snd (if nw >? nrows then (warning, nrows) else ([], nw))))
               nrows (Z.max 0 ncols)) as [-> _];
    [lia|lia| |apply initial_board_rectangular|].
  - intros b Hb. apply (updateBoard_par_eval b nrows (Z.max 0 ncols)); try (done || lia).
    destruct (nw >? nrows); cbn; lia.
  - cbn [bind]. by destruct (nw >? nrows).
Qed.

(** The OpenMP version with six arguments. *)
Lemma omp_main_run :
  Omp.main env argv0 args
  = Ok (mkExit (report env) 0 (Some nw)
               (Some (Nat.iter (Z.to_nat iters) life_step
                               (initializeBoard env nrows ncols seed)))).
Proof using All.
  unfold Omp.main. rewrite Hargs. cbn [Z.add Z.eqb negb Pos.add Pos.eqb Pos.succ].
  cbv zeta. rewrite Enrows, Encols, Eiters, Eseed, Enw.
  rewrite for_each_iterate.
  edestruct (iterate_life_step (fun b => Omp.updateBoard b nw)
               nrows (Z.max 0 ncols)) as [-> _];
    [lia|lia| |apply initial_board_rectangular|done].
  intros b Hb. apply (updateBoard_omp_eval b nrows (Z.max 0 ncols)); (done || lia).
Qed.

End drivers.

Lemma usage_exit_iff (run : result Exit) (argv0 : string) (args : list string)
    (body : result Exit) :
  run = (if negb (1 + vsize args =? 7)
         then Ok (mkExit (usage argv0) (-1) None None) else body) ->
  (forall e, body = Ok e -> status e = 0) ->
  (exists e, run = Ok e /\ status e <> 0 /\ stdout e = usage argv0)
  <-> 1 + vsize args <> 7.
Proof.
  intros -> Hbody. destruct (Z.eqb_spec (1 + vsize args) 7) as [Heq|Hne];
    cbn [negb].
  - split; [|done]. intros (e & He & Hstatus & _). by apply Hbody in He.
  - split; [done|]. intros _. eexists. split; [done|]. by split.
Qed.

(** C8. In both programs: [main] returns a non-zero status after the
    line [Usage: <argv[0]> nrows ncols iters seed sleeptime nworkers]
    exactly when [argc != 7]; and with six arguments that [atoi] reads as
    positive [int]s, [nrows] and [ncols] above 1, [main] runs [iters]
    steps from the initial board, prints [Simulation spent: ], the elapsed
    microseconds divided by 1000 and [ msec] (in the threads version after
    the warning line, when and only when [nw > nrows]) and returns 0. *)
Theorem main_exit_status (env : Env) (argv0 : string) (args : list string) :
  ((exists e, Par.main env argv0 args = Ok e
              /\ status e <> 0
              /\ stdout e
                 = [text "Usage: "; text argv0;
                    text (" nrows ncols iters seed sleeptime nworkers"
                          ++ String "010"%char "")])
   <-> 1 + vsize args <> 7)
  /\ ((exists e, Omp.main env argv0 args = Ok e
                 /\ status e <> 0
                 /\ stdout e
                    = [text "Usage: "; text argv0;
                       text (" nrows ncols iters seed sleeptime nworkers"
                             ++ String "010"%char "")])
      <-> 1 + vsize args <> 7)
  /\ (1 + vsize args = 7 ->
      1 < atoi env (argv argv0 args 1) <= INT_MAX ->
      1 < atoi env (argv argv0 args 2) <= INT_MAX ->
      1 <= atoi env (argv argv0 args 3) ->
      1 <= atoi env (argv argv0 args 6) <= INT_MAX ->
      exists final,
        final = Nat.iter (Z.to_nat (atoi env (argv argv0 args 3))) life_step
                  (initializeBoard env (atoi env (argv argv0 args 1))
                     (atoi env (argv argv0 args 2))
                     (atoi env (argv argv0 args 4)))
        /\ (exists e, Par.main env argv0 args = Ok e
              /\ status e = 0 /\ board_at_exit e = Some final
              /\ ((atoi env (argv argv0 args 6) <= atoi env (argv argv0 args 1)
                   /\ stdout e
                      = [text "Simulation spent: ";
                         number (Z.quot (elapsed_usec env) 1000);
                         text (" msec" ++ String "010"%char "")])
                  \/ (atoi env (argv argv0 args 6) > atoi env (argv argv0 args 1)
                      /\ stdout e
                         = [text "Warning: bounding workers with nrows.";
                            text (String "010"%char "");
                            text "Simulation spent: ";
                            number (Z.quot (elapsed_usec env) 1000);
                            text (" msec" ++ String "010"%char "")])))
        /\ (exists e, Omp.main env argv0 args = Ok e
              /\ status e = 0 /\ board_at_exit e = Some final
              /\ stdout e
                 = [text "Simulation spent: ";
                    number (Z.quot (elapsed_usec env) 1000);
                    text (" msec" ++ String "010"%char "")])).
Proof.
  split; [|split].
  - change [text "Usage: "; text argv0;
            text (" nrows ncols iters seed sleeptime nworkers"
                  ++ String "010"%char "")] with (usage argv0).
    eapply usage_exit_iff; [reflexivity|].
    intros e He. cbv zeta in He.
    destruct (for_each _ _ _) in He; [|discriminate].
    cbn [bind] in He. by injection He as <-.
  - change [text "Usage: "; text argv0;
            text (" nrows ncols iters seed sleeptime nworkers"
                  ++ String "010"%char "")] with (usage argv0).
    eapply usage_exit_iff; [reflexivity|].
    intros e He. cbv zeta in He.
    destruct (for_each _ _ _) in He; [|discriminate].
    cbn [bind] in He. by injection He as <-.
  - intros Hargc Hnrows Hncols Hiters Hnw. eexists. split; [reflexivity|].
    split; eexists.
    + rewrite (par_main_run env argv0 args ltac:(lia) _ _ _ _ _
                 eq_refl eq_refl eq_refl eq_refl eq_refl) by lia.
      split; [reflexivity|]. cbn [status board_at_exit stdout].
      split; [reflexivity|]. split; [reflexivity|].
      destruct (Z.gtb_spec (atoi env (argv argv0 args 6))
                  (atoi env (argv argv0 args 1))); [right|left];
        (split; [lia|reflexivity]).
    + rewrite (omp_main_run env argv0 args ltac:(lia) _ _ _ _ _
                 eq_refl eq_refl eq_refl eq_refl eq_refl) by lia.
      split; [reflexivity|]. cbn [status board_at_exit stdout].
      split; [reflexivity|]. split; reflexivity.
Qed.

Lemma main_exit_status_witness :
  ((exists e, Par.main demo_env "gol-par" args_3x3 = Ok e
              /\ status e <> 0
              /\ stdout e
                 = [text "Usage: "; text "gol-par";
                    text (" nrows ncols iters seed sleeptime nworkers"
                          ++ String "010"%char "")])
   <-> 1 + vsize args_3x3 <> 7)
  /\ exists final,
       final = Nat.iter (Z.to_nat (atoi demo_env (argv "gol-par" args_3x3 3)))
                 life_step
                 (initializeBoard demo_env (atoi demo_env (argv "gol-par" args_3x3 1))
                    (atoi demo_env (argv "gol-par" args_3x3 2))
                    (atoi demo_env (argv "gol-par" args_3x3 4)))
       /\ (exists e, Par.main demo_env "gol-par" args_3x3 = Ok e
             /\ status e = 0 /\ board_at_exit e = Some final
             /\ ((atoi demo_env (argv "gol-par" args_3x3 6)
                  <= atoi demo_env (argv "gol-par" args_3x3 1)
                  /\ stdout e
                     = [text "Simulation spent: ";
                        number (Z.quot (elapsed_usec demo_env) 1000);
                        text (" msec" ++ String "010"%char "")])
                 \/ (atoi demo_env (argv "gol-par" args_3x3 6)
                     > atoi demo_env (argv "gol-par" args_3x3 1)
                     /\ stdout e
                        = [text "Warning: bounding workers with nrows.";
                           text (String "010"%char "");
                           text "Simulation spent: ";
                           number (Z.quot (elapsed_usec demo_env) 1000);
                           text (" msec" ++ String "010"%char "")])))
       /\ (exists e, Omp.main demo_env "gol-par" args_3x3 = Ok e
             /\ status e = 0 /\ board_at_exit e = Some final
             /\ stdout e
                = [text "Simulation spent: ";
                   number (Z.quot (elapsed_usec demo_env) 1000);
                   text (" msec" ++ String "010"%char "")]).
Proof.
  destruct (main_exit_status demo_env "gol-par" args_3x3) as (Husage & _ & Hrun).
  split; [exact Husage|].
  apply Hrun; vm_compute; repeat split; discriminate.
Defined.





(** * Further properties of the code *)

(** ** updateCell on a board of any shape *)

Lemma vec_at_spec {A} (v : list A) n :
  0 <= n ->
  vec_at v n = match v !! Z.to_nat n with
               | Some x => Ok x
               | None => Err out_of_range
               end.
Proof.
  intros Hn. unfold vec_at, vsize.
  destruct (Z.ltb_spec n (Z.of_nat (length v))) as [Hlt|Hge]; [done|].
  by rewrite lookup_ge_None_2 by lia.
Qed.

Lemma vec_at_negative {A} (v : list A) n :
  vsize v <= INT_MAX -> INT_MIN <= n < 0 ->
  vec_at v (to_size_t n) = Err out_of_range.
Proof.
  intros Hv Hn. unfold vec_at.
  assert (to_size_t n = 18446744073709551616 + n) as ->.
  { unfold to_size_t, INT_MIN in *.
    rewrite <- (Z_mod_plus_full n 1). rewrite Z.mod_small; lia. }
  destruct (Z.ltb_spec (18446744073709551616 + n) (vsize v)); [|done].
  unfold INT_MIN, INT_MAX in *. lia.
Qed.

(** The two tests that guard a read, with the wrap-around of the index. *)
Lemma guard_exact size r d :
  0 <= size <= INT_MAX -> INT_MIN <= r <= INT_MAX -> -1 <= d <= 1 ->
  (0 <=? int_add r d) && (to_size_t (int_add r d) <? size)
  = (0 <=? r + d) && (r + d <? size)
  /\ (0 <= r + d < size ->
      int_add r d = r + d /\ to_size_t (r + d) = r + d).
Proof.
  intros Hsize Hr Hd.
  destruct (decide (INT_MIN <= r + d <= INT_MAX)) as [Hin|Hout].
  - rewrite int_add_small by done. split.
    + destruct (Z.leb_spec 0 (r + d)); [|done].
      by rewrite to_size_t_id by lia.
    + intros Hrd. split; [done|]. apply to_size_t_id. lia.
  - unfold INT_MIN, INT_MAX in *.
    assert (r + d = 2147483648 \/ r + d = -2147483649) as [Heq|Heq] by lia;
      unfold int_add; rewrite Heq; (split; [|lia]).
    + cbn. symmetry. apply Z.ltb_ge. lia.
    + change (to_int (-2147483649)) with 2147483647.
      rewrite to_size_t_id by (unfold INT_MAX; lia). cbn.
      apply Z.ltb_ge. lia.
Qed.

Lemma neighbour_step_any (row : list Z) c dc (on : bool) n m :
  vsize row <= INT_MAX -> INT_MIN <= c <= INT_MAX -> -1 <= dc <= 1 ->
  n = to_int m ->
  (if on && (0 <=? int_add c dc) && (to_size_t (int_add c dc) <? vsize row)
   then let* v := vec_at row (to_size_t (int_add c dc)) in Ok (int_add n v)
   else Ok n)
  = Ok (to_int (m + (if on
                     then if 0 <=? c + dc
                          then default 0 (row !! Z.to_nat (c + dc)) else 0
                     else 0))).
Proof.
  intros Hrow Hc Hdc ->.
  assert (0 <= vsize row <= INT_MAX) as Hsize by (unfold vsize in *; lia).
  destruct (guard_exact (vsize row) c dc Hsize Hc Hdc) as [Hguard Hexact].
  rewrite <- andb_assoc, Hguard.
  destruct on; cbn [andb]; [|do 2 f_equal; lia].
  destruct (Z.leb_spec 0 (c + dc)) as [Hlo|Hlo]; cbn [andb];
    [|do 2 f_equal; lia].
  destruct (Z.ltb_spec (c + dc) (vsize row)) as [Hhi|Hhi].
  - destruct Hexact as [-> ->]; [lia|].
    rewrite vec_at_spec by done.
    destruct (lookup_lt_is_Some_2 row (Z.to_nat (c + dc))) as [v ->].
    { unfold vsize in Hhi. lia. }
    cbn. unfold int_add. by rewrite to_int_add_l.
  - rewrite lookup_ge_None_2 by (unfold vsize in Hhi; lia).
    cbn. do 2 f_equal. lia.
Qed.

Lemma cell_or_zero_row (board : Board) r c row :
  0 <= r -> board !! Z.to_nat r = Some row ->
  cell_or_zero board r c
  = if 0 <=? c then default 0 (row !! Z.to_nat c) else 0.
Proof.
  intros Hr Hrow. unfold cell_or_zero. rewrite Hrow.
  by destruct (Z.leb_spec 0 r); [|lia].
Qed.

Lemma cell_or_zero_no_row (board : Board) r c :
  ~ (0 <= r < vsize board) -> cell_or_zero board r c = 0.
Proof.
  intros Hr. unfold cell_or_zero.
  destruct (Z.leb_spec 0 r); [|done].
  rewrite lookup_ge_None_2 by (unfold vsize in Hr; lia).
  by destruct (0 <=? c).
Qed.

Lemma neighbour_sum_by_rows (board : Board) r c :
  neighbour_sum board r c
  = 0 + row_sum board r c (-1) + row_sum board r c 0 + row_sum board r c 1.
Proof.
  unfold neighbour_sum, row_sum, neighbour_offsets.
  cbn -[cell_or_zero Z.add]. lia.
Qed.

Section any_shape.

Variable board : Board.
Hypothesis Hsized : int_sized board.

Lemma board_size_bounds : 0 <= vsize board <= INT_MAX.
Proof using Hsized. destruct Hsized as [Hlen _]. unfold vsize in *. lia. Qed.

Lemma row_size_bound (k : nat) row :
  board !! k = Some row -> vsize row <= INT_MAX.
Proof using Hsized.
  intros Hrow. destruct Hsized as [_ Hrows].
  by apply (Forall_lookup_1 _ _ _ _ Hrows Hrow).
Qed.

Lemma row_step_any r c offset n m :
  INT_MIN <= r <= INT_MAX -> INT_MIN <= c <= INT_MAX ->
  -1 <= offset <= 1 -> n = to_int m ->
  (if (0 <=? int_add r offset)
      && (to_size_t (int_add r offset) <? vsize board) then
     let* row := vec_at board (to_size_t (int_add r offset)) in
     for_each range (fun offcol neighbours =>
       if (nonzero offcol || nonzero offset)
          && (0 <=? int_add c offcol)
          && (to_size_t (int_add c offcol) <? vsize row) then
         let* brow := vec_at board (to_size_t (int_add r offset)) in
         let* v := vec_at brow (to_size_t (int_add c offcol)) in
         Ok (int_add neighbours v)
       else Ok neighbours) n
   else Ok n)
  = Ok (to_int (m + row_sum board r c offset)).
Proof using Hsized.
  intros Hr Hc Hoff ->.
  destruct (guard_exact (vsize board) r offset board_size_bounds Hr Hoff)
    as [-> Hexact].
  destruct (Z.leb_spec 0 (r + offset)) as [Hlo|Hlo]; cbn [andb].
  - destruct (Z.ltb_spec (r + offset) (vsize board)) as [Hhi|Hhi].
    + destruct Hexact as [-> ->]; [lia|].
      destruct (lookup_lt_is_Some_2 board (Z.to_nat (r + offset))) as [row Hrow].
      { unfold vsize in Hhi. lia. }
      rewrite vec_at_spec, Hrow by done. cbn [bind for_each range].
      pose proof (row_size_bound _ _ Hrow) as Hrowsize.
      rewrite (neighbour_step_any row c (-1) _ _ m) by (done || lia).
      cbn [bind].
      rewrite (neighbour_step_any row c 0 _ _ _) by (done || lia).
      cbn [bind].
      rewrite (neighbour_step_any row c 1 _ _ _) by (done || lia).
      cbn [bind]. unfold row_sum.
      rewrite !(cell_or_zero_row board (r + offset) _ row) by done.
      do 2 f_equal. lia.
    + unfold row_sum. rewrite !cell_or_zero_no_row by lia.
      do 2 f_equal.
      repeat match goal with |- context [if ?b then _ else _] => destruct b end; lia.
  - unfold row_sum. rewrite !cell_or_zero_no_row by lia.
    do 2 f_equal.
    repeat match goal with |- context [if ?b then _ else _] => destruct b end; lia.
Qed.

(** The two reads of the centre cell. *)
Lemma centre_read {B} r c (k : Z -> result B) :
  INT_MIN <= r <= INT_MAX -> INT_MIN <= c <= INT_MAX ->
  (let* brow := vec_at board (to_size_t r) in
   let* v := vec_at brow (to_size_t c) in k v)
  = match cell_at board r c with
    | Some v => k v
    | None => Err out_of_range
    end.
Proof using Hsized.
  intros Hr Hc. unfold cell_at.
  destruct (Z.leb_spec 0 r) as [Hr0|Hr0]; cbn [andb].
  - rewrite to_size_t_id, vec_at_spec by lia.
    destruct (board !! Z.to_nat r) as [row|] eqn:Hrow; cbn [bind];
      [|by destruct (0 <=? c)].
    pose proof (row_size_bound _ _ Hrow) as Hrowsize.
    destruct (Z.leb_spec 0 c) as [Hc0|Hc0].
    + rewrite to_size_t_id, vec_at_spec by lia. by destruct (row !! Z.to_nat c).
    + by rewrite vec_at_negative by lia.
  - rewrite vec_at_negative; [done| |lia]. apply board_size_bounds.
Qed.

(** [updateCell] on a board of any shape and at any pair of [int]s. *)
Lemma updateCell_any r c :
  INT_MIN <= r <= INT_MAX -> INT_MIN <= c <= INT_MAX ->
  Par.updateCell r c board
  = match cell_at board r c with
    | Some v => Ok (life_rule (nonzero v) (to_int (neighbour_sum board r c)))
    | None => Err out_of_range
    end.
Proof using Hsized.
  intros Hr Hc. unfold Par.updateCell.
  rewrite for_each_range. cbv beta.
  rewrite (row_step_any r c (-1) 0 0) by (done || lia). cbn [bind].
  rewrite (row_step_any r c 0 _ _) by (done || lia). cbn [bind].
  rewrite (row_step_any r c 1 _ _) by (done || lia). cbn [bind].
  rewrite <- neighbour_sum_by_rows.
  rewrite (centre_read r c (fun v => Ok (nonzero v))) by done.
  rewrite (centre_read r c
             (fun v => Ok (negb (nonzero v)
                           && (to_int (neighbour_sum board r c) =? 3))))
    by done.
  destruct (cell_at board r c) as [v|].
  - unfold life_rule.
    destruct (_ =? 2), (_ =? 3), (nonzero v); reflexivity.
  - by destruct (_ || _).
Qed.

End any_shape.

(** ** updateBoard on a board of any shape *)

Lemma cell_at_cell_or_zero (board : Board) r c v :
  cell_at board r c = Some v -> cell_or_zero board r c = v.
Proof.
  unfold cell_at, cell_or_zero. destruct ((0 <=? r) && (0 <=? c)); [|done].
  destruct (board !! Z.to_nat r) as [row|]; [|done]. by intros ->.
Qed.

Lemma cell_at_row (board : Board) (k j : nat) row :
  board !! k = Some row -> cell_at board (Z.of_nat k) (Z.of_nat j) = row !! j.
Proof.
  intros Hrow. unfold cell_at.
  destruct (Z.leb_spec 0 (Z.of_nat k)); [|lia].
  destruct (Z.leb_spec 0 (Z.of_nat j)); [|lia].
  cbn. by rewrite !Nat2Z.id, Hrow.
Qed.

Lemma vsize_foldl_write (board : Board) rs (new_board : Board) :
  vsize (foldl (write_row board) new_board rs) = vsize new_board.
Proof.
  revert new_board. induction rs as [|r rs IH]; intros nb; cbn; [done|].
  rewrite IH. unfold write_row, vsize. by rewrite length_insert.
Qed.

Lemma lookup_foldl_write (board : Board) rs (new_board : Board) (k : nat) :
  Forall (fun r => 0 <= r) rs -> Z.of_nat k < vsize new_board ->
  Z.of_nat k ∈ rs ->
  foldl (write_row board) new_board rs !! k
  = Some (next_row board (Z.of_nat k)).
Proof.
  revert new_board. induction rs as [|r rs IH] using rev_ind;
    intros nb Hrs Hk Hin.
  { by apply elem_of_nil in Hin. }
  rewrite foldl_app. cbn.
  rewrite Forall_app, Forall_singleton in Hrs. destruct Hrs as [Hrs Hr].
  pose proof (vsize_foldl_write board rs nb) as Hlen.
  unfold write_row at 1.
  destruct (decide (Z.to_nat r = k)) as [<-|Hne].
  - rewrite list_lookup_insert_eq by (unfold vsize in *; lia).
    by rewrite Z2Nat.id by lia.
  - rewrite list_lookup_insert_ne by done.
    apply IH; [done..|].
    apply elem_of_app in Hin as [Hin|Hin]; [done|].
    apply list_elem_of_singleton in Hin. lia.
Qed.

Lemma lookup_life_step_any (board : Board) (k : nat) :
  Z.of_nat k < vsize board ->
  life_step board !! k = Some (next_row board (Z.of_nat k)).
Proof.
  intros Hk. unfold life_step. rewrite list_lookup_fmap.
  by rewrite lookup_seqZ_lt.
Qed.

Lemma vsize_life_step (board : Board) : vsize (life_step board) = vsize board.
Proof.
  unfold life_step, vsize at 1. rewrite length_map, length_seqZ.
  unfold vsize. lia.
Qed.

Lemma vsize_next_row (board : Board) (k : nat) row :
  board !! k = Some row -> vsize (next_row board (Z.of_nat k)) = vsize row.
Proof.
  intros Hrow. unfold next_row, vsize at 1.
  rewrite length_map, length_seqZ, Nat2Z.id, Hrow. cbn. unfold vsize. lia.
Qed.

Lemma foldl_write_all (board : Board) rs (new_board : Board) :
  rs ≡ₚ seqZ 0 (vsize board) -> vsize new_board = vsize board ->
  foldl (write_row board) new_board rs = life_step board.
Proof.
  intros Hperm Hlen. apply list_eq. intros k.
  pose proof (vsize_foldl_write board rs new_board) as Hlen'.
  pose proof (vsize_life_step board) as Hlen''.
  destruct (decide (Z.of_nat k < vsize board)) as [Hk|Hk].
  - rewrite lookup_life_step_any by done. apply lookup_foldl_write.
    + rewrite Hperm. apply Forall_seqZ. lia.
    + lia.
    + rewrite Hperm. apply elem_of_seqZ. lia.
  - unfold vsize in *.
    rewrite (lookup_ge_None_2 (foldl _ _ _)) by lia.
    by rewrite (lookup_ge_None_2 (life_step board)) by lia.
Qed.

Lemma int_sized_life_step (board : Board) :
  int_sized board -> int_sized (life_step board).
Proof.
  intros [Hlen Hrows]. split; [by rewrite vsize_life_step|].
  apply Forall_lookup_2. intros k row' Hrow'.
  assert (Z.of_nat k < vsize board) as Hk.
  { apply lookup_lt_Some in Hrow'. pose proof (vsize_life_step board).
    unfold vsize in *. lia. }
  rewrite lookup_life_step_any in Hrow' by done. injection Hrow' as <-.
  destruct (lookup_lt_is_Some_2 board k) as [row Hrow];
    [unfold vsize in Hk; lia|].
  rewrite (vsize_next_row board k row Hrow).
  by apply (Forall_lookup_1 _ _ _ _ Hrows Hrow).
Qed.

Section any_shape_rows.

Variable board : Board.
Hypothesis Hsized : int_sized board.

Lemma new_row_loop_any (k : nat) row :
  board !! k = Some row ->
  for_each (seqZ 0 (vsize row)) (fun i new_row =>
    let* b := Par.updateCell (Z.of_nat k) i board in
    Ok (new_row ++ [Z.b2z b])) []
  = Ok (next_row board (Z.of_nat k)).
Proof using Hsized.
  intros Hrow.
  pose proof (board_size_bounds board Hsized) as Hsize.
  pose proof (row_size_bound board Hsized k row Hrow) as Hrowsize.
  apply lookup_lt_Some in Hrow as Hk.
  edestruct (for_each_foldl (fun _ : list Z => True)
               (fun acc i => acc ++ [next_cell board (Z.of_nat k) i]))
    as [-> _]; [done| |].
  - intros i acc Hi _. apply elem_of_seqZ in Hi. cbv beta.
    rewrite (updateCell_any board Hsized)
      by (unfold vsize, INT_MIN in *; lia).
    replace i with (Z.of_nat (Z.to_nat i)) at 1 by lia.
    rewrite (cell_at_row board k (Z.to_nat i) row Hrow).
    destruct (lookup_lt_is_Some_2 row (Z.to_nat i)) as [v Hv];
      [unfold vsize in Hi; lia|].
    rewrite Hv. cbn [bind]. split; [|done]. unfold next_cell.
    rewrite (cell_at_cell_or_zero board (Z.of_nat k) i v); [done|].
    replace i with (Z.of_nat (Z.to_nat i)) at 1 by lia.
    by rewrite (cell_at_row board k (Z.to_nat i) row Hrow).
  - rewrite foldl_snoc. unfold next_row. by rewrite Nat2Z.id, Hrow.
Qed.

Lemma row_task_write_any r (new_board : Board) :
  0 <= r < vsize board -> vsize new_board = vsize board ->
  Par.row_task board r new_board = Ok (write_row board new_board r).
Proof using Hsized.
  intros Hr Hlen. unfold Par.row_task.
  pose proof (board_size_bounds board Hsized) as Hsize.
  destruct (lookup_lt_is_Some_2 board (Z.to_nat r)) as [row Hrow];
    [unfold vsize in Hr; lia|].
  rewrite to_size_t_id, vec_at_spec, Hrow by lia. cbn [bind].
  pose proof (new_row_loop_any (Z.to_nat r) row Hrow) as Hloop.
  rewrite Z2Nat.id in Hloop by lia. rewrite Hloop.
  cbn [bind]. unfold vec_set.
  destruct (Z.ltb_spec r (vsize new_board)); [done|lia].
Qed.

Lemma run_all_rows_any rs (new_board : Board) :
  rs ≡ₚ seqZ 0 (vsize board) -> vsize new_board = vsize board ->
  for_each rs (Par.row_task board) new_board = Ok (life_step board).
Proof using Hsized.
  intros Hperm Hlen.
  edestruct (for_each_foldl (fun nb : list (list Z) => vsize nb = vsize board)
               (write_row board) rs (Par.row_task board) new_board)
    as [-> _]; [done| |by rewrite foldl_write_all].
  intros r nb Hr Hnb. rewrite Hperm in Hr. apply elem_of_seqZ in Hr.
  split; [apply row_task_write_any; (done || lia)|].
  unfold write_row, vsize in *. by rewrite length_insert.
Qed.

Lemma vsize_blank_any :
  vsize (replicate (length board) ([] : list Z)) = vsize board.
Proof using Type. unfold vsize. by rewrite length_replicate. Qed.

Lemma updateBoard_par_any nworkers :
  1 <= nworkers <= INT_MAX ->
  Par.updateBoard board nworkers = Ok (life_step board).
Proof using Hsized.
  intros Hnw. unfold Par.updateBoard.
  pose proof (board_size_bounds board Hsized) as Hsize.
  rewrite build_ranges_closed by done. cbn [bind].
  change (Par.compute_chunk board)
    with (fun rg s => for_each (Par.chunk_rows rg) (Par.row_task board) s).
  rewrite for_each_chunks, chunk_rows_all by done.
  by apply run_all_rows_any; [|apply vsize_blank_any].
Qed.

Lemma updateBoard_omp_any nw :
  Omp.updateBoard board nw = Ok (life_step board).
Proof using Hsized.
  unfold Omp.updateBoard, Omp.run_schedule. rewrite row_task_omp_par.
  by apply run_all_rows_any; [|apply vsize_blank_any].
Qed.

End any_shape_rows.

Lemma cell_at_bounds (board : Board) r c v :
  int_sized board -> cell_at board r c = Some v ->
  0 <= r <= INT_MAX /\ 0 <= c <= INT_MAX.
Proof.
  intros [Hlen Hrows] Hcell. unfold cell_at in Hcell.
  destruct (Z.leb_spec 0 r); [|done]. destruct (Z.leb_spec 0 c); [|done].
  cbn in Hcell. destruct (board !! Z.to_nat r) as [row|] eqn:Hrow; [|done].
  apply (Forall_lookup_1 _ _ _ _ Hrows) in Hrow as Hrowsize.
  apply lookup_lt_Some in Hrow. apply lookup_lt_Some in Hcell.
  unfold vsize in *. lia.
Qed.

Lemma ragged_int_sized : int_sized ragged.
Proof.
  split; [unfold vsize, INT_MAX; cbn; lia|].
  repeat constructor; unfold vsize, INT_MAX; cbn; lia.
Defined.

(** X1. On a board of any shape (the rows may differ in length) with
    [int] dimensions, [updateCell] at a cell of the board returns the rule
    of the game applied to the cell and to the [int] sum of those of its
    eight neighbours that exist; the neighbour reads never throw. *)
Theorem updateCell_any_shape (board : Board) (r c v : Z) :
  int_sized board -> cell_at board r c = Some v ->
  Par.updateCell r c board
  = Ok (life_rule (nonzero v) (to_int (neighbour_sum board r c)))
  /\ Omp.updateCell r c board
     = Ok (life_rule (nonzero v) (to_int (neighbour_sum board r c))).
Proof.
  intros Hsized Hcell.
  destruct (cell_at_bounds board r c v Hsized Hcell) as [Hr Hc].
  rewrite updateCell_omp_par.
  rewrite (updateCell_any board Hsized) by (unfold INT_MIN; lia).
  by rewrite Hcell.
Qed.

Lemma updateCell_any_shape_witness :
  Par.updateCell 2 1 ragged
  = Ok (life_rule (nonzero 1) (to_int (neighbour_sum ragged 2 1)))
  /\ Omp.updateCell 2 1 ragged
     = Ok (life_rule (nonzero 1) (to_int (neighbour_sum ragged 2 1))).
Proof.
  apply (updateCell_any_shape ragged 2 1 1 ragged_int_sized). reflexivity.
Defined.

(** X2. On a board with [int] dimensions and for any [int]s [r] and [c],
    [updateCell] throws [out_of_range] exactly when [(r, c)] is not a cell
    of the board (the final read of the centre is not guarded), and it has
    no other failure. *)
Theorem updateCell_throws_outside (board : Board) (r c : Z) :
  int_sized board ->
  INT_MIN <= r <= INT_MAX -> INT_MIN <= c <= INT_MAX ->
  (Par.updateCell r c board = Err out_of_range <-> cell_at board r c = None)
  /\ (Omp.updateCell r c board = Err out_of_range <-> cell_at board r c = None)
  /\ Par.updateCell r c board <> Err undefined_behaviour
  /\ Omp.updateCell r c board <> Err undefined_behaviour.
Proof.
  intros Hsized Hr Hc. rewrite updateCell_omp_par.
  rewrite (updateCell_any board Hsized) by done.
  destruct (cell_at board r c); repeat split; done.
Qed.

Lemma updateCell_throws_outside_witness :
  (Par.updateCell 1 0 ragged = Err out_of_range <-> cell_at ragged 1 0 = None)
  /\ (Omp.updateCell 1 0 ragged = Err out_of_range <-> cell_at ragged 1 0 = None)
  /\ Par.updateCell 1 0 ragged <> Err undefined_behaviour
  /\ Omp.updateCell 1 0 ragged <> Err undefined_behaviour.
Proof.
  apply (updateCell_throws_outside ragged 1 0 ragged_int_sized);
    unfold INT_MIN, INT_MAX; lia.
Defined.

(** X3. On a board of any shape with [int] dimensions and for any worker
    count from 1 to [INT_MAX] (also above the number of rows),
    [updateBoard] returns, in both versions, the same board: it has as
    many rows as the prior board, each row keeps its own length, and each
    cell holds the 0 or 1 of the rule of the game. *)
Theorem updateBoard_any_shape (board : Board) (nworkers : Z) :
  int_sized board -> 1 <= nworkers <= INT_MAX ->
  exists b',
    Par.updateBoard board nworkers = Ok b'
    /\ Omp.updateBoard board nworkers = Ok b'
    /\ vsize b' = vsize board
    /\ (forall (k : nat) row, board !! k = Some row ->
          exists row', b' !! k = Some row' /\ vsize row' = vsize row)
    /\ (forall r c v, cell_at board r c = Some v ->
          cell_at b' r c
          = Some (Z.b2z (life_rule (nonzero v)
                                   (to_int (neighbour_sum board r c))))).
Proof.
  intros Hsized Hnw. exists (life_step board).
  split; [by apply updateBoard_par_any|].
  split; [by apply updateBoard_omp_any|].
  split; [apply vsize_life_step|]. split.
  - intros k row Hrow. exists (next_row board (Z.of_nat k)).
    split; [|by apply vsize_next_row].
    apply lookup_life_step_any. apply lookup_lt_Some in Hrow.
    unfold vsize. lia.
  - intros r c v Hcell.
    pose proof (cell_at_cell_or_zero board r c v Hcell) as Hzero.
    unfold cell_at in *.
    destruct (Z.leb_spec 0 r); [|done]. destruct (Z.leb_spec 0 c); [|done].
    cbn [andb] in *.
    destruct (board !! Z.to_nat r) as [row|] eqn:Hrow; [|done].
    apply lookup_lt_Some in Hrow as Hk. apply lookup_lt_Some in Hcell as Hj.
    rewrite lookup_life_step_any by (unfold vsize; lia).
    unfold next_row. rewrite Z2Nat.id, Hrow by lia. cbn [default from_option id].
    rewrite list_lookup_fmap, lookup_seqZ_lt by (unfold vsize; lia).
    rewrite Z.add_0_l, Z2Nat.id by lia. cbn [fmap option_fmap option_map].
    unfold next_cell. by rewrite Hzero.
Qed.

Lemma updateBoard_any_shape_witness :
  exists b',
    Par.updateBoard ragged 5 = Ok b'
    /\ Omp.updateBoard ragged 5 = Ok b'
    /\ vsize b' = vsize ragged
    /\ (forall (k : nat) row, ragged !! k = Some row ->
          exists row', b' !! k = Some row' /\ vsize row' = vsize row)
    /\ (forall r c v, cell_at ragged r c = Some v ->
          cell_at b' r c
          = Some (Z.b2z (life_rule (nonzero v)
                                   (to_int (neighbour_sum ragged r c))))).
Proof.
  apply (updateBoard_any_shape ragged 5 ragged_int_sized).
  unfold INT_MAX. lia.
Defined.

(** X4. With more workers than rows (and [int] values), [updateBoard]
    builds a one-row range [i, i] for each of the first [nrows] workers and
    the empty range [nrows, nrows - 1] for every other worker, so the rows
    of all the ranges are still 0, ..., nrows-1, each once. *)
Theorem build_ranges_more_workers (nrows nworkers : Z) :
  0 <= nrows < nworkers -> nworkers <= INT_MAX ->
  exists ranges,
    Par.build_ranges nrows nworkers = Ok ranges
    /\ vsize ranges = nworkers
    /\ (forall (i : nat) rg, ranges !! i = Some rg ->
          if Z.of_nat i <? nrows
          then start rg = Z.of_nat i /\ end_ rg = Z.of_nat i
          else start rg = nrows /\ end_ rg = nrows - 1)
    /\ concat (map Par.chunk_rows ranges) = seqZ 0 nrows.
Proof.
  intros Hnrows Hnw.
  assert (0 <= nrows <= INT_MAX) as Hsize by lia.
  assert (1 <= nworkers <= INT_MAX) as Hnw' by lia.
  exists (map (range_of nrows nworkers) (seqZ 0 nworkers)).
  split; [by apply build_ranges_closed|].
  split; [unfold vsize; rewrite length_map, length_seqZ; lia|].
  split; [|by apply chunk_rows_all].
  intros i rg Hrg. apply lookup_ranges in Hrg as [-> Hi].
  unfold range_of. cbn [start end_].
  rewrite Z.div_small, Z.mod_small by lia.
  destruct (Z.ltb_spec (Z.of_nat i) nrows); lia.
Qed.

Lemma build_ranges_more_workers_witness :
  exists ranges,
    Par.build_ranges 2 5 = Ok ranges
    /\ vsize ranges = 5
    /\ (forall (i : nat) rg, ranges !! i = Some rg ->
          if Z.of_nat i <? 2
          then start rg = Z.of_nat i /\ end_ rg = Z.of_nat i
          else start rg = 2 /\ end_ rg = 2 - 1)
    /\ concat (map Par.chunk_rows ranges) = seqZ 0 2.
Proof.
  apply (build_ranges_more_workers 2 5); unfold INT_MAX; lia.
Defined.

(** ** The drivers at the edges of their domain *)

Lemma par_main_steps (env : Env) (argv0 : string) (args : list string) :
  vsize args = 6 ->
  Par.main env argv0 args
  = let nrows := atoi env (argv argv0 args 1) in
    let nw := atoi env (argv argv0 args 6) in
    let bounded := if nw >? nrows then (warning, nrows) else ([], nw) in
    let* board :=
      iterate (Z.to_nat (atoi env (argv argv0 args 3)))
              (fun b => Par.updateBoard b (snd bounded))
              (initializeBoard env nrows (atoi env (argv argv0 args 2))
                               (atoi env (argv argv0 args 4))) in
    Ok (mkExit (fst bounded ++ report env) 0 (Some (snd bounded)) (Some board)).
Proof.
  intros Hargs. unfold Par.main. rewrite Hargs.
  cbn [Z.add Z.eqb negb Pos.add Pos.eqb Pos.succ]. cbv zeta.
  by rewrite for_each_iterate.
Qed.

Lemma omp_main_steps (env : Env) (argv0 : string) (args : list string) :
  vsize args = 6 ->
  Omp.main env argv0 args
  = let* board :=
      iterate (Z.to_nat (atoi env (argv argv0 args 3)))
              (fun b => Omp.updateBoard b (atoi env (argv argv0 args 6)))
              (initializeBoard env (atoi env (argv argv0 args 1))
                               (atoi env (argv argv0 args 2))
                               (atoi env (argv argv0 args 4))) in
    Ok (mkExit (report env) 0 (Some (atoi env (argv argv0 args 6)))
               (Some board)).
Proof.
  intros Hargs. unfold Omp.main. rewrite Hargs.
  cbn [Z.add Z.eqb negb Pos.add Pos.eqb Pos.succ]. cbv zeta.
  by rewrite for_each_iterate.
Qed.

Lemma length_initializeBoard env nrows ncols seed :
  length (initializeBoard env nrows ncols seed) = Z.to_nat nrows.
Proof.
  destruct (initializeBoard_rectangular env nrows ncols seed) as [Hlen _].
  unfold vsize in Hlen. lia.
Qed.

(** X5. With six arguments, an [nrows] of at least 0, a negative worker
    count and at least one step, the threads program builds no range and
    starts no thread in any step: it prints the report and returns 0, and
    the board at exit has [nrows] empty rows, the cells of the initial
    board being lost. *)
Theorem negative_workers_blank_board (env : Env) (argv0 : string)
    (args : list string) :
  vsize args = 6 ->
  0 <= atoi env (argv argv0 args 1) ->
  INT_MIN <= atoi env (argv argv0 args 6) < 0 ->
  1 <= atoi env (argv argv0 args 3) ->
  Par.main env argv0 args
  = Ok (mkExit (report env) 0 (Some (atoi env (argv argv0 args 6)))
               (Some (replicate (Z.to_nat (atoi env (argv argv0 args 1))) []))).
Proof.
  intros Hargs Hnrows Hnw Hiters. rewrite par_main_steps by done. cbv zeta.
  destruct (Z.gtb_spec (atoi env (argv argv0 args 6))
              (atoi env (argv argv0 args 1))); [lia|]. cbn [fst snd app].
  destruct (Z.to_nat (atoi env (argv argv0 args 3))) as [|n] eqn:Hn; [lia|].
  cbn [iterate]. rewrite updateBoard_par_negative by done. cbn [bind].
  rewrite length_initializeBoard.
  by rewrite iterate_fixed by (by apply blank_fixed).
Qed.

Lemma negative_workers_blank_board_witness :
  Par.main demo_env "gol-par" args_negative
  = Ok (mkExit (report demo_env) 0
               (Some (atoi demo_env (argv "gol-par" args_negative 6)))
               (Some (replicate
                        (Z.to_nat (atoi demo_env (argv "gol-par" args_negative 1)))
                        []))).
Proof.
  apply (negative_workers_blank_board demo_env "gol-par" args_negative);
    vm_compute; repeat split; discriminate.
Defined.

(** X6. With six arguments, [nrows = 0], a positive worker count and at
    least one step, the threads program bounds the workers to 0 and the
    first step divides by zero; the OpenMP program, which does not bound
    them, returns 0 with an empty board. *)
Theorem no_rows_divides_by_zero (env : Env) (argv0 : string)
    (args : list string) :
  vsize args = 6 ->
  atoi env (argv argv0 args 1) = 0 ->
  1 <= atoi env (argv argv0 args 6) ->
  1 <= atoi env (argv argv0 args 3) ->
  Par.main env argv0 args = Err undefined_behaviour
  /\ Omp.main env argv0 args
     = Ok (mkExit (report env) 0 (Some (atoi env (argv argv0 args 6)))
                  (Some [])).
Proof.
  intros Hargs Hnrows Hnw Hiters.
  rewrite par_main_steps, omp_main_steps by done. cbv zeta. rewrite Hnrows.
  destruct (Z.gtb_spec (atoi env (argv argv0 args 6)) 0); [|lia].
  cbn [fst snd].
  destruct (Z.to_nat (atoi env (argv argv0 args 3))) as [|n] eqn:Hn; [lia|].
  split; [reflexivity|].
  change (initializeBoard env 0 (atoi env (argv argv0 args 2))
            (atoi env (argv argv0 args 4))) with ([] : list (list Z)).
  by rewrite iterate_fixed.
Qed.

Lemma no_rows_divides_by_zero_witness :
  Par.main demo_env "gol" args_no_row = Err undefined_behaviour
  /\ Omp.main demo_env "gol" args_no_row
     = Ok (mkExit (report demo_env) 0
                  (Some (atoi demo_env (argv "gol" args_no_row 6))) (Some [])).
Proof.
  apply (no_rows_divides_by_zero demo_env "gol" args_no_row);
    vm_compute; repeat split; discriminate.
Defined.

(** X7. With six arguments and [iters <= 0], neither program calls
    [updateBoard]: both return 0 with the initial board, whatever the
    worker count, 0 and negative counts included. *)
Theorem no_step_keeps_initial_board (env : Env) (argv0 : string)
    (args : list string) :
  vsize args = 6 ->
  atoi env (argv argv0 args 3) <= 0 ->
  (exists e, Par.main env argv0 args = Ok e /\ status e = 0
     /\ board_at_exit e
        = Some (initializeBoard env (atoi env (argv argv0 args 1))
                  (atoi env (argv argv0 args 2)) (atoi env (argv argv0 args 4))))
  /\ (exists e, Omp.main env argv0 args = Ok e /\ status e = 0
        /\ board_at_exit e
           = Some (initializeBoard env (atoi env (argv argv0 args 1))
                     (atoi env (argv argv0 args 2))
                     (atoi env (argv argv0 args 4)))).
Proof.
  intros Hargs Hiters.
  rewrite par_main_steps, omp_main_steps by done. cbv zeta.
  replace (Z.to_nat (atoi env (argv argv0 args 3))) with 0%nat by lia.
  cbn [iterate bind]. split; eexists; by repeat split.
Qed.

Lemma no_step_keeps_initial_board_witness :
  (exists e, Par.main demo_env "gol" args_no_step = Ok e /\ status e = 0
     /\ board_at_exit e
        = Some (initializeBoard demo_env (atoi demo_env (argv "gol" args_no_step 1))
                  (atoi demo_env (argv "gol" args_no_step 2))
                  (atoi demo_env (argv "gol" args_no_step 4))))
  /\ (exists e, Omp.main demo_env "gol" args_no_step = Ok e /\ status e = 0
        /\ board_at_exit e
           = Some (initializeBoard demo_env
                     (atoi demo_env (argv "gol" args_no_step 1))
                     (atoi demo_env (argv "gol" args_no_step 2))
                     (atoi demo_env (argv "gol" args_no_step 4)))).
Proof.
  apply (no_step_keeps_initial_board demo_env "gol" args_no_step);
    vm_compute; repeat split; discriminate.
Defined.

(** X8. With six arguments, [1 <= nrows], [int] dimensions and a worker
    count from 1 to [INT_MAX], the threads program prints the line
    [Warning: bounding workers with nrows.] before the three items of the
    report when [nw > nrows], and the three items of the report alone
    otherwise. *)
Theorem warning_when_bounded (env : Env) (argv0 : string) (args : list string) :
  vsize args = 6 ->
  1 <= atoi env (argv argv0 args 1) <= INT_MAX ->
  atoi env (argv argv0 args 2) <= INT_MAX ->
  1 <= atoi env (argv argv0 args 6) <= INT_MAX ->
  exists e,
    Par.main env argv0 args = Ok e
    /\ (atoi env (argv argv0 args 6) > atoi env (argv argv0 args 1) ->
        stdout e
        = [text "Warning: bounding workers with nrows.";
           text (String "010"%char "");
           text "Simulation spent: ";
           number (Z.quot (elapsed_usec env) 1000);
           text (" msec" ++ String "010"%char "")])
    /\ (atoi env (argv argv0 args 6) <= atoi env (argv argv0 args 1) ->
        stdout e
        = [text "Simulation spent: ";
           number (Z.quot (elapsed_usec env) 1000);
           text (" msec" ++ String "010"%char "")])
    /\ (In (text "Warning: bounding workers with nrows.") (stdout e)
        <-> atoi env (argv argv0 args 6) > atoi env (argv argv0 args 1)).
Proof.
  intros Hargs Hnrows Hncols Hnw. eexists.
  rewrite (par_main_run env argv0 args Hargs _ _ _ _ _
             eq_refl eq_refl eq_refl eq_refl eq_refl) by done.
  split; [reflexivity|]. cbn [stdout].
  destruct (Z.gtb_spec (atoi env (argv argv0 args 6))
              (atoi env (argv argv0 args 1))) as [Hgt|Hle].
  - split; [done|]. split; [lia|]. split; [lia|]. intros _. by left.
  - split; [lia|]. split; [done|]. split; [|lia].
    intros [H|[H|[H|[]]]]; discriminate H.
Qed.

Lemma warning_when_bounded_witness :
  exists e,
    Par.main demo_env "gol-par" args_3x3 = Ok e
    /\ (atoi demo_env (argv "gol-par" args_3x3 6)
        > atoi demo_env (argv "gol-par" args_3x3 1) ->
        stdout e
        = [text "Warning: bounding workers with nrows.";
           text (String "010"%char "");
           text "Simulation spent: ";
           number (Z.quot (elapsed_usec demo_env) 1000);
           text (" msec" ++ String "010"%char "")])
    /\ (atoi demo_env (argv "gol-par" args_3x3 6)
        <= atoi demo_env (argv "gol-par" args_3x3 1) ->
        stdout e
        = [text "Simulation spent: ";
           number (Z.quot (elapsed_usec demo_env) 1000);
           text (" msec" ++ String "010"%char "")])
    /\ (In (text "Warning: bounding workers with nrows.") (stdout e)
        <-> atoi demo_env (argv "gol-par" args_3x3 6)
            > atoi demo_env (argv "gol-par" args_3x3 1)).
Proof.
  apply (warning_when_bounded demo_env "gol-par" args_3x3);
    vm_compute; repeat split; discriminate.
Defined.

(** ** initializeBoard *)

Lemma fill_row_closed env seed (l : list Z) (row : list Z) (k : nat) :
  foldl (fun (st' : list Z * nat) (_ : Z) =>
           (fst st' ++ [Z.rem (rand_after env seed (snd st')) 2], S (snd st')))
        (row, k) l
  = (row ++ map (fun j => Z.rem (rand_after env seed (k + j)%nat) 2)
                (seq 0 (length l)),
     (k + length l)%nat).
Proof.
  revert row k. induction l as [|x l IH]; intros row k; cbn [foldl fst snd].
  - cbn. by rewrite app_nil_r, Nat.add_0_r.
  - rewrite IH. cbn [length seq map]. rewrite <- app_assoc. cbn [app].
    rewrite Nat.add_0_r, <- seq_shift, map_map. f_equal; [|lia].
    do 2 f_equal. apply map_ext. intros j.
    by replace (S k + j)%nat with (k + S j)%nat by lia.
Qed.

Lemma fill_board_closed env seed (n : nat) (cols l : list Z) (b : Board) (k : nat) :
  length cols = n ->
  foldl (fun (st : list (list Z) * nat) (_ : Z) =>
           let filled :=
             foldl (fun (st' : list Z * nat) (_ : Z) =>
                      (fst st' ++ [Z.rem (rand_after env seed (snd st')) 2],
                       S (snd st')))
                   ([], snd st) cols in
           (fst st ++ [fst filled], snd filled))
        (b, k) l
  = (b ++ map (fun i => map (fun j => Z.rem (rand_after env seed
                                              (k + i * n + j)%nat) 2)
                            (seq 0 n))
              (seq 0 (length l)),
     (k + length l * n)%nat).
Proof.
  intros Hcols. revert b k.
  induction l as [|x l IH]; intros b k; cbn [foldl fst snd].
  - cbn. by rewrite app_nil_r, Nat.add_0_r.
  - cbv zeta. rewrite fill_row_closed, Hcols. cbn [fst snd app].
    rewrite IH. cbn [length seq map]. rewrite <- app_assoc. cbn [app].
    rewrite <- seq_shift, map_map. f_equal; [|lia]. do 2 f_equal.
    + apply map_ext. intros j.
      by replace (k + 0 * n + j)%nat with (k + j)%nat by lia.
    + apply map_ext. intros i. apply map_ext. intros j.
      by replace (k + n + i * n + j)%nat with (k + S i * n + j)%nat by lia.
Qed.

(** The board in closed form: the cell [(i, j)] is the parity of the call
    number [i * ncols + j] of [rand()]. *)
Lemma initializeBoard_closed env nrows ncols seed :
  initializeBoard env nrows ncols seed
  = map (fun i => map (fun j => Z.rem (rand_after env seed
                                        (i * Z.to_nat ncols + j)%nat) 2)
                      (seq 0 (Z.to_nat ncols)))
        (seq 0 (Z.to_nat nrows)).
Proof.
  unfold initializeBoard.
  rewrite (fill_board_closed env seed (Z.to_nat ncols))
    by apply length_seqZ.
  cbn [fst app]. by rewrite length_seqZ.
Qed.

(** X9. [initializeBoard] draws the cells in row-major order: the cell
    [(r, c)] of its board exists exactly for [0 <= r < nrows] and
    [0 <= c < ncols], and it is [rand() % 2] for the call number
    [r * ncols + c] of [rand()] after [srand(seed)]; with an [nrows] or
    [ncols] of 0 or less the board has no cell. *)
Theorem initializeBoard_cells (env : Env) (nrows ncols seed r c : Z) :
  cell_at (initializeBoard env nrows ncols seed) r c
  = if (0 <=? r) && (r <? nrows) && (0 <=? c) && (c <? ncols)
    then Some (Z.rem (rand_after env seed (Z.to_nat (r * ncols + c))) 2)
    else None.
Proof.
  rewrite initializeBoard_closed. unfold cell_at.
  destruct (Z.leb_spec 0 r) as [Hr|Hr]; cbn [andb]; [|done].
  destruct (Z.ltb_spec r nrows) as [Hr'|Hr']; cbn [andb].
  - rewrite list_lookup_fmap, lookup_seq_lt by lia. cbn.
    destruct (Z.leb_spec 0 c) as [Hc|Hc]; [|done].
    destruct (Z.ltb_spec c ncols) as [Hc'|Hc'].
    + rewrite list_lookup_fmap, lookup_seq_lt by lia. cbn.
      do 3 f_equal. lia.
    + rewrite list_lookup_fmap, lookup_seq_ge by lia. done.
  - rewrite list_lookup_fmap, lookup_seq_ge by lia. cbn.
    by destruct (0 <=? c).
Qed.

(** X10. When [rand()] returns no negative value, as the C library
    promises, the board of [initializeBoard] is rectangular, with
    [max(0, nrows)] rows of [max(0, ncols)] cells, and each cell is 0 or
    1. *)
Theorem initializeBoard_binary (env : Env) (nrows ncols seed : Z) :
  (forall k, 0 <= rand_after env seed k) ->
  rectangular (initializeBoard env nrows ncols seed)
              (Z.max 0 nrows) (Z.max 0 ncols)
  /\ binary_board (initializeBoard env nrows ncols seed).
Proof.
  intros Hrand. split; [apply initializeBoard_rectangular|].
  rewrite initializeBoard_closed. unfold binary_board.
  apply Forall_fmap, Forall_forall. intros i _. cbn.
  apply Forall_fmap, Forall_forall. intros j _. cbn.
  pose proof (Z.rem_bound_pos
                (rand_after env seed (i * Z.to_nat ncols + j)%nat) 2
                (Hrand _)).
  lia.
Qed.

Lemma initializeBoard_binary_witness :
  rectangular (initializeBoard demo_env 2 3 7) (Z.max 0 2) (Z.max 0 3)
  /\ binary_board (initializeBoard demo_env 2 3 7).
Proof.
  apply (initializeBoard_binary demo_env 2 3 7). intros k. cbn. lia.
Defined.

(** ** printBoard *)

Lemma printBoard_cons (row : list Z) (board : Board) :
  printBoard (row :: board)
  = map (fun x => text (if nonzero x then ALIVE_CELL else DEAD_CELL)) row
    ++ text newline :: printBoard board.
Proof. unfold printBoard. cbn [map concat]. by rewrite <- !app_assoc. Qed.

(** The bytes of a printed row, followed by anything, determine the row
    and the bytes that follow: a cell starts with [X] or with the byte
    194, the end of the row with a line feed. *)
Lemma printed_row_bytes_inj (r1 r2 : list Z) (t1 t2 : list out_item) :
  Forall (fun v => v = 0 \/ v = 1) r1 -> Forall (fun v => v = 0 \/ v = 1) r2 ->
  stream (map (fun x => text (if nonzero x then ALIVE_CELL else DEAD_CELL)) r1
          ++ text newline :: t1)
  = stream (map (fun x => text (if nonzero x then ALIVE_CELL else DEAD_CELL)) r2
            ++ text newline :: t2) ->
  r1 = r2 /\ stream t1 = stream t2.
Proof.
  intros H1. revert r2. induction H1 as [|x r1 Hx _ IH]; intros r2 H2 Heq.
  - destruct H2 as [|y r2 Hy _]; cbn [map app stream item_bytes] in Heq.
    + split; [done|]. vm_compute in Heq. by injection Heq.
    + exfalso. revert Heq.
      generalize (stream (map (fun x => text (if nonzero x then ALIVE_CELL
                                              else DEAD_CELL)) r2
                          ++ text newline :: t2)).
      generalize (stream t1). intros s1 s2.
      destruct Hy as [-> | ->]; intros Heq; vm_compute in Heq;
        discriminate.
  - destruct H2 as [|y r2 Hy H2]; cbn [map app stream item_bytes] in Heq.
    + exfalso. revert Heq.
      generalize (stream (map (fun x => text (if nonzero x then ALIVE_CELL
                                              else DEAD_CELL)) r1
                          ++ text newline :: t1)).
      generalize (stream t2). intros s2 s1.
      destruct Hx as [-> | ->]; intros Heq; vm_compute in Heq;
        discriminate.
    + assert (x = y
              /\ stream (map (fun x => text (if nonzero x then ALIVE_CELL
                                             else DEAD_CELL)) r1
                         ++ text newline :: t1)
                 = stream (map (fun x => text (if nonzero x then ALIVE_CELL
                                               else DEAD_CELL)) r2
                           ++ text newline :: t2)) as [-> Htail].
      { revert Heq.
        generalize (stream (map (fun x => text (if nonzero x then ALIVE_CELL
                                                else DEAD_CELL)) r1
                            ++ text newline :: t1)).
        generalize (stream (map (fun x => text (if nonzero x then ALIVE_CELL
                                                else DEAD_CELL)) r2
                            ++ text newline :: t2)).
        intros s2 s1.
        destruct Hx as [-> | ->]; destruct Hy as [-> | ->];
          intros Heq; vm_compute in Heq;
          first [discriminate | by injection Heq]. }
      by destruct (IH r2 H2 Htail) as [-> ->].
Qed.

(** X11. On boards of 0/1 cells the bytes that [printBoard] writes
    determine the board: two such boards whose outputs are the same
    sequence of bytes are equal, row lengths included. *)
Theorem printBoard_injective (b1 b2 : Board) :
  binary_board b1 -> binary_board b2 ->
  stream (printBoard b1) = stream (printBoard b2) -> b1 = b2.
Proof.
  intros H1. revert b2. induction H1 as [|r1 b1 Hr1 _ IH]; intros b2 H2 Heq.
  - destruct H2 as [|r2 b2 Hr2 _]; [done|]. exfalso.
    rewrite printBoard_cons in Heq.
    destruct Hr2 as [|y r2 Hy _]; cbn [map app stream item_bytes] in Heq;
      revert Heq.
    + generalize (stream (printBoard b2)). intros s2 Heq.
      vm_compute in Heq. discriminate.
    + generalize (stream (map (fun x => text (if nonzero x then ALIVE_CELL
                                              else DEAD_CELL)) r2
                          ++ text newline :: printBoard b2)).
      intros s2.
      destruct Hy as [-> | ->]; intros Heq; vm_compute in Heq;
        discriminate.
  - destruct H2 as [|r2 b2 Hr2 H2].
    + exfalso. rewrite printBoard_cons in Heq.
      destruct Hr1 as [|x r1 Hx _]; cbn [map app stream item_bytes] in Heq;
        revert Heq.
      * generalize (stream (printBoard b1)). intros s1 Heq.
        vm_compute in Heq. discriminate.
      * generalize (stream (map (fun x => text (if nonzero x then ALIVE_CELL
                                                else DEAD_CELL)) r1
                            ++ text newline :: printBoard b1)).
        intros s1.
        destruct Hx as [-> | ->]; intros Heq; vm_compute in Heq;
          discriminate.
    + rewrite !printBoard_cons in Heq.
      destruct (printed_row_bytes_inj r1 r2 _ _ Hr1 Hr2 Heq) as [-> Htail].
      by rewrite (IH b2 H2 Htail).
Qed.

Lemma square2_binary : binary_board square2.
Proof.
  repeat first [apply List.Forall_cons | apply List.Forall_nil];
    ((left; reflexivity) || (right; reflexivity)).
Defined.

Lemma printBoard_injective_witness : square2 = [[0; 1]; [1; 0]].
Proof.
  apply (printBoard_injective square2 [[0; 1]; [1; 0]]);
    [apply square2_binary..|reflexivity].
Defined.

(** X12. [printBoard] prints one item per cell, one line end per row and
    the closing rule with its line end; and it only looks at whether a
    cell is non-zero, so a board and the board of its 0/1 states print
    alike. *)
Theorem printBoard_shape (board : Board) :
  length (printBoard board) = (length (concat board) + length board + 2)%nat
  /\ printBoard (map (map (fun x => Z.b2z (nonzero x))) board)
     = printBoard board.
Proof.
  split.
  - induction board as [|row board IH]; [done|].
    rewrite printBoard_cons, length_app, length_map. cbn [length concat].
    rewrite IH, length_app. lia.
  - induction board as [|row board IH]; [done|].
    cbn [map]. rewrite !printBoard_cons, IH. f_equal.
    rewrite map_map. apply map_ext. intros x.
    by destruct (nonzero x) eqn:Hx.
Qed.

(** ** The DEBUG build *)





(** ** Locality and symmetry of the step *)

Lemma blinker_int_sized : int_sized blinker.
Proof.
  split; [unfold vsize, INT_MAX; cbn; lia|].
  repeat first [apply List.Forall_cons | apply List.Forall_nil];
    unfold vsize, INT_MAX; cbn; lia.
Defined.

Lemma blinker_corner_int_sized : int_sized blinker_corner.
Proof.
  split; [unfold vsize, INT_MAX; cbn; lia|].
  repeat first [apply List.Forall_cons | apply List.Forall_nil];
    unfold vsize, INT_MAX; cbn; lia.
Defined.

(** X14. [updateCell] only looks at the 3x3 block around the cell: on two
    boards with [int] dimensions that agree on the cell [(r, c)] and on
    its eight neighbours (0 standing for a missing neighbour), it returns
    the same result, in both files. *)
Theorem updateCell_local (b1 b2 : Board) (r c : Z) :
  int_sized b1 -> int_sized b2 ->
  INT_MIN <= r <= INT_MAX -> INT_MIN <= c <= INT_MAX ->
  cell_at b1 r c = cell_at b2 r c ->
  (forall dr dc, -1 <= dr <= 1 -> -1 <= dc <= 1 ->
     cell_or_zero b1 (r + dr) (c + dc) = cell_or_zero b2 (r + dr) (c + dc)) ->
  Par.updateCell r c b1 = Par.updateCell r c b2
  /\ Omp.updateCell r c b1 = Omp.updateCell r c b2.
Proof.
  intros Hb1 Hb2 Hr Hc Hcentre Hblock. rewrite updateCell_omp_par.
  rewrite (updateCell_any b1 Hb1), (updateCell_any b2 Hb2) by done.
  rewrite Hcentre.
  assert (neighbour_sum b1 r c = neighbour_sum b2 r c) as ->; [|done].
  unfold neighbour_sum, neighbour_offsets. cbn -[cell_or_zero Z.add].
  by rewrite !Hblock by lia.
Qed.

Lemma updateCell_local_witness :
  Par.updateCell 1 1 blinker = Par.updateCell 1 1 blinker_corner
  /\ Omp.updateCell 1 1 blinker = Omp.updateCell 1 1 blinker_corner.
Proof.
  apply (updateCell_local blinker blinker_corner 1 1 blinker_int_sized
           blinker_corner_int_sized);
    try (unfold INT_MIN, INT_MAX; lia); [reflexivity|].
  intros dr dc Hdr Hdc.
  assert (dr = -1 \/ dr = 0 \/ dr = 1) as [-> | [-> | ->]] by lia;
    assert (dc = -1 \/ dc = 0 \/ dc = 1) as [-> | [-> | ->]] by lia;
    reflexivity.
Defined.

Lemma vsize_reverse {A} (l : list A) : vsize (reverse l) = vsize l.
Proof. unfold vsize. by rewrite length_reverse. Qed.

Lemma cell_or_zero_reverse (board : Board) r c :
  cell_or_zero (reverse board) r c
  = cell_or_zero board (vsize board - 1 - r) c.
Proof.
  destruct (decide (0 <= r < vsize board)) as [Hr|Hr].
  - unfold cell_or_zero.
    destruct (Z.leb_spec 0 r); [|lia].
    destruct (Z.leb_spec 0 (vsize board - 1 - r)); [|lia].
    rewrite reverse_lookup by (unfold vsize in Hr; lia).
    by replace (Z.to_nat (vsize board - 1 - r))
      with (length board - S (Z.to_nat r))%nat by (unfold vsize in *; lia).
  - rewrite !cell_or_zero_no_row; [done| |]; rewrite ?vsize_reverse; lia.
Qed.

Lemma neighbour_sum_reverse (board : Board) r c :
  neighbour_sum (reverse board) r c
  = neighbour_sum board (vsize board - 1 - r) c.
Proof.
  unfold neighbour_sum, neighbour_offsets. cbn -[cell_or_zero Z.add].
  rewrite !cell_or_zero_reverse.
  replace (vsize board - 1 - (r + -1)) with (vsize board - 1 - r + 1) by lia.
  replace (vsize board - 1 - (r + 0)) with (vsize board - 1 - r + 0) by lia.
  replace (vsize board - 1 - (r + 1)) with (vsize board - 1 - r + -1) by lia.
  lia.
Qed.

Lemma next_row_reverse (board : Board) (k : nat) :
  Z.of_nat k < vsize board ->
  next_row (reverse board) (Z.of_nat k)
  = next_row board (vsize board - 1 - Z.of_nat k).
Proof.
  intros Hk. unfold next_row.
  rewrite Nat2Z.id, reverse_lookup by (unfold vsize in Hk; lia).
  replace (Z.to_nat (vsize board - 1 - Z.of_nat k))
    with (length board - S k)%nat by (unfold vsize in *; lia).
  apply map_ext. intros c. unfold next_cell.
  by rewrite cell_or_zero_reverse, neighbour_sum_reverse.
Qed.

Lemma life_step_reverse (board : Board) :
  life_step (reverse board) = reverse (life_step board).
Proof.
  apply list_eq. intros k.
  pose proof (vsize_life_step board) as Hlen.
  pose proof (vsize_life_step (reverse board)) as Hlen'.
  rewrite vsize_reverse in Hlen'.
  destruct (decide (Z.of_nat k < vsize board)) as [Hk|Hk].
  - rewrite lookup_life_step_any by (by rewrite vsize_reverse).
    rewrite reverse_lookup by (unfold vsize in *; lia).
    rewrite next_row_reverse by done.
    rewrite lookup_life_step_any by (unfold vsize in *; lia).
    do 2 f_equal. unfold vsize in *. lia.
  - rewrite !lookup_ge_None_2; [done| |].
    + rewrite length_reverse. unfold vsize in *. lia.
    + unfold vsize in *. lia.
Qed.

(** X15. The step has no preferred vertical direction: on a board of any
    shape with [int] dimensions and for a worker count from 1 to
    [INT_MAX], [updateBoard] of the board with its rows in the opposite
    order is the board of [updateBoard] with its rows in the opposite
    order, in both versions. *)
Theorem updateBoard_reverse (board : Board) (nworkers : Z) :
  int_sized board -> 1 <= nworkers <= INT_MAX ->
  exists b',
    Par.updateBoard board nworkers = Ok b'
    /\ Par.updateBoard (reverse board) nworkers = Ok (reverse b')
    /\ Omp.updateBoard board nworkers = Ok b'
    /\ Omp.updateBoard (reverse board) nworkers = Ok (reverse b').
Proof.
  intros Hsized Hnw.
  assert (int_sized (reverse board)) as Hsized'.
  { destruct Hsized as [Hlen Hrows].
    split; [by rewrite vsize_reverse|by apply Forall_reverse]. }
  exists (life_step board). rewrite <- life_step_reverse.
  repeat split;
    by (apply updateBoard_par_any || apply updateBoard_omp_any).
Qed.

Lemma updateBoard_reverse_witness :
  exists b',
    Par.updateBoard ragged 2 = Ok b'
    /\ Par.updateBoard (reverse ragged) 2 = Ok (reverse b')
    /\ Omp.updateBoard ragged 2 = Ok b'
    /\ Omp.updateBoard (reverse ragged) 2 = Ok (reverse b').
Proof.
  apply (updateBoard_reverse ragged 2 ragged_int_sized).
  unfold INT_MAX. lia.
Defined.
